(** * Daily Job Fetcher: a shallow embedding of [fetch_jobs.js]

    The script asks SerpAPI for Google Jobs listings for a list of role
    queries, keeps the postings published today, removes duplicates, tracks
    the remaining search credits and mails one report through Resend.

    Conventions of the embedding.
    - A JavaScript string is a [string]: a sequence of code units, each
      below 256 (the Latin-1 part of UTF-16).  [toLowerCase], [trim],
      [includes], [split], [join], [replace] and the word boundary of
      regular expressions are written out on that representation.
    - A property read from a JSON object is a [field]: [Undefined] when the
      property is absent, [Null], or a string.  Counters of the account
      endpoint are [jsval]s.
    - A Number is a double.  A finite one is a [number]: its value counted
      in units of 2^-1074, the smallest positive double, so that every
      finite double is a whole count, a whole number [n] is [of_Z n], and
      two and a half is [5 * 2 ^ 1073].  The subtraction rounds to 53
      significant bits, to nearest, ties to even, as the machine does.  The
      two zeros are one: the script compares, subtracts and prints its
      numbers, and none of these tells [-0] from [0].
    - What the JavaScript engine supplies and the script does not define
      ([new Date(s)], the clock, the numeric value of a string, the decimal
      form of a number that is no whole number below 2^53) is a [Runtime];
      theorems quantify over it.
    - Input and output (fetch, Resend, console) go through a trace of
      [event]s; the answers of the outside world come from a [World]. *)

From stdpp Require Import base strings list gmap pretty.
From Stdlib Require Import ZArith Ascii Lia.

Local Open Scope Z_scope.

(** ** Strings *)

Module Js.

Definition code (c : ascii) : N := N_of_ascii c.

Definition between (lo hi : N) (c : ascii) : bool :=
  ((lo <=? code c) && (code c <=? hi))%N.

(** WhiteSpace and LineTerminator code units below 256, as removed by
    [String.prototype.trim]: TAB, LF, VT, FF, CR, SP and NBSP. *)
Definition is_space (c : ascii) : bool :=
  between 9 13 c || (code c =? 32)%N || (code c =? 160)%N.

(** [toLowerCase] on one code unit: A-Z, and the Latin-1 capitals
    U+00C0..U+00DE except the multiplication sign U+00D7. *)
Definition lower_char (c : ascii) : ascii :=
  if between 65 90 c || (between 192 222 c && negb (code c =? 215)%N)
  then ascii_of_N (code c + 32) else c.

Fixpoint toLowerCase (s : string) : string :=
  match s with
  | EmptyString => EmptyString
  | String c s' => String (lower_char c) (toLowerCase s')
  end.

Fixpoint trimStart (s : string) : string :=
  match s with
  | EmptyString => EmptyString
  | String c s' => if is_space c then trimStart s' else s
  end.

Fixpoint trimEnd (s : string) : string :=
  match s with
  | EmptyString => EmptyString
  | String c s' =>
      match trimEnd s' with
      | EmptyString => if is_space c then EmptyString else String c EmptyString
      | r => String c r
      end
  end.

Definition trim (s : string) : string := trimEnd (trimStart s).

(** [s.startsWith(p)], returning what follows the prefix. *)
Fixpoint strip_prefix (p s : string) : option string :=
  match p, s with
  | EmptyString, _ => Some s
  | String a p', String b s' =>
      if decide (a = b) then strip_prefix p' s' else None
  | String _ _, EmptyString => None
  end.

(** [s.includes(sub)] *)
Fixpoint includes (sub s : string) : bool :=
  match strip_prefix sub s with
  | Some _ => true
  | None =>
      match s with
      | EmptyString => false
      | String _ s' => includes sub s'
      end
  end.

(** [s.replace(/[.,]/g, " ")] *)
Fixpoint replace_dot_comma (s : string) : string :=
  match s with
  | EmptyString => EmptyString
  | String c s' =>
      String (if decide (c = "."%char) then " "%char
              else if decide (c = ","%char) then " "%char else c)
             (replace_dot_comma s')
  end.

(** The class [\w] of a regular expression without flags. *)
Definition is_word_char (c : ascii) : bool :=
  between 48 57 c || between 65 90 c || between 97 122 c || (code c =? 95)%N.

Definition is_word (o : option ascii) : bool :=
  match o with Some c => is_word_char c | None => false end.

(** The assertion [\b] between a left neighbour and a right neighbour,
    [None] standing for the start or the end of the input. *)
Definition word_boundary (l r : option ascii) : bool :=
  xorb (is_word l) (is_word r).

Definition head (s : string) : option ascii :=
  match s with EmptyString => None | String c _ => Some c end.

Fixpoint last_of (prev : option ascii) (s : string) : option ascii :=
  match s with
  | EmptyString => prev
  | String c s' => last_of (Some c) s'
  end.

(** One attempt of [/\b lit \b/] at the current position, [prev] being the
    code unit to the left of it. *)
Definition bounded_here (prev : option ascii) (lit s : string) : bool :=
  word_boundary prev (head s) &&
  match strip_prefix lit s with
  | Some rest => word_boundary (last_of prev lit) (head rest)
  | None => false
  end.

(** [/\b lit \b/.test(s)]: the attempt is made at every position. *)
Fixpoint test_bounded_from (prev : option ascii) (lit s : string) : bool :=
  bounded_here prev lit s ||
  match s with
  | EmptyString => false
  | String c s' => test_bounded_from (Some c) lit s'
  end.

Definition test_bounded (lit s : string) : bool :=
  test_bounded_from None lit s.

(** [s.split(sep)] for a one-character separator. *)
Fixpoint split (sep : ascii) (s : string) : list string :=
  match s with
  | EmptyString => [EmptyString]
  | String c s' =>
      if decide (c = sep) then EmptyString :: split sep s'
      else match split sep s' with
           | [] => [String c EmptyString]
           | w :: ws => String c w :: ws
           end
  end.

(** [l.join(sep)] on an array of strings. *)
Definition join (sep : string) (l : list string) : string :=
  String.concat sep l.

Definition is_empty (s : string) : bool :=
  match s with EmptyString => true | _ => false end.

Definition hex_digit (n : N) : ascii :=
  ascii_of_N (if (n <? 10)%N then 48 + n else 55 + n).

Definition percent (n : N) : string :=
  String "%"%char (String (hex_digit (n / 16)) (String (hex_digit (n mod 16)) EmptyString)).

(** The characters [encodeURIComponent] leaves alone. *)
Definition uri_unreserved (c : ascii) : bool :=
  is_word_char c ||
  bool_decide (c ∈ ["-"; "."; "!"; "~"; "*"; "'"; "("; ")"]%char).

(** [encodeURIComponent]: other code units are written as the bytes of
    their UTF-8 encoding, one or two bytes below 256. *)
Fixpoint encodeURIComponent (s : string) : string :=
  match s with
  | EmptyString => EmptyString
  | String c s' =>
      (if uri_unreserved c then String c EmptyString
       else if (code c <? 128)%N then percent (code c)
       else percent (192 + code c / 64) +:+ percent (128 + code c mod 64))
      +:+ encodeURIComponent s'
  end.

End Js.

(** ** Numbers *)

(** A finite double, in units of 2^-1074. *)
Definition number : Type := Z.

(** The whole number [n]. *)
Definition of_Z (n : Z) : number := n * 2 ^ 1074.

(** The double nearest to [v] units: [v] keeps its 53 leading bits; what
    is cut off rounds to nearest, a tie to the even neighbour.  (The result
    is not checked for overflow: a double less one does not overflow.) *)
Definition round_to_double (v : Z) : number :=
  let a := Z.abs v in
  let shift := Z.log2 a - 52 in
  if shift <=? 0 then v
  else
    let q := a / 2 ^ shift in
    let r := a mod 2 ^ shift in
    let half := 2 ^ (shift - 1) in
    let q' :=
      if r <? half then q
      else if half <? r then q + 1
      else if Z.even q then q else q + 1 in
    Z.sgn v * (q' * 2 ^ shift).

(** [x - y] *)
Definition number_sub (x y : number) : number := round_to_double (x - y).

(** A whole number below 2^53 in magnitude. *)
Definition is_safe_integer (x : number) : bool :=
  (x mod 2 ^ 1074 =? 0) && (Z.abs x <? of_Z (2 ^ 53)).

Arguments of_Z : simpl never.
Arguments round_to_double : simpl never.
Arguments number_sub : simpl never.
Arguments is_safe_integer : simpl never.

(** ** Values read from JSON *)

Inductive field :=
  | Undefined
  | Null
  | Str (s : string).

(** [v || ""] on a field. *)
Definition or_empty (v : field) : string :=
  match v with Str s => s | _ => EmptyString end.

(** [!v] *)
Definition falsy (v : field) : bool :=
  match v with Str s => Js.is_empty s | _ => true end.

(** ["..." + v]: the string a field concatenates as. *)
Definition show (v : field) : string :=
  match v with Undefined => "undefined" | Null => "null" | Str s => s end.

Inductive jsnum :=
  | Fin (x : number)
  | NaN
  | Inf (negative : bool).

(** A value of the account response: absent, [null], a boolean, a number,
    a string, or a plain object (arrays are not represented). *)
Inductive jsval :=
  | VUndefined
  | VNull
  | VBool (b : bool)
  | VNum (n : jsnum)
  | VStr (s : string)
  | VObject.

(** ** What the engine supplies *)

Record ymd := { year : Z; month : Z; day : Z }.

Global Instance ymd_eq_dec : EqDecision ymd.
Proof. solve_decision. Defined.

Record Runtime := {
  (** [new Date(s)] read through [getFullYear], [getMonth] and [getDate]:
      the calendar day in the zone of the process, [None] when the time
      value is NaN. *)
  date_parse : string -> option ymd;
  (** [new Date()], read the same way. *)
  date_now : ymd;
  (** [Number(s)] on a string. *)
  string_to_number : string -> jsnum;
  (** [String(x)] on a finite number that is not a whole number below 2^53
      in magnitude: its shortest decimal form, in exponent notation from
      1e21 on. *)
  number_to_string : number -> string
}.

(** ** Freshness *)

Definition relativePatterns : list string :=
  ["minute"; "minutes"; "min"; "mins"; "hour"; "hours"; "hr"; "hrs"; "today"].

Definition isPostedToday (rt : Runtime) (postedAt : field) : bool :=
  if falsy postedAt then false
  else
    let raw := or_empty postedAt in
    let normalized := Js.trim (Js.toLowerCase raw) in
    let sanitized := Js.replace_dot_comma normalized in
    if Js.includes "just posted" normalized || Js.includes "just now" normalized
    then true
    else if existsb (fun pattern => Js.test_bounded pattern sanitized) relativePatterns
    then true
    else match date_parse rt raw with
         | Some parsedDate =>
             let now := date_now rt in
             (year parsedDate =? year now) &&
             (month parsedDate =? month now) &&
             (day parsedDate =? day now)
         | None => false
         end.

(** ** Postings and duplicates *)

Definition normalizeText (value : field) : string :=
  Js.toLowerCase (Js.trim (or_empty value)).

Record JobPosting := {
  title : field;
  company_name : field;
  location : field;
  (** [job.detected_extensions?.posted_at] *)
  posted_at : field;
  (** [job.apply_options?.[0]?.link] *)
  apply_link : field
}.

Definition dedupe_key (job : JobPosting) : string :=
  normalizeText (title job) +:+ "|" +:+ normalizeText (company_name job).

(** The [for ... of] loop of [removeDuplicates], with its two locals. *)
Fixpoint removeDuplicates_loop
    (seen : gset string) (output jobs : list JobPosting) : list JobPosting :=
  match jobs with
  | [] => output
  | job :: rest =>
      let key := dedupe_key job in
      if decide (key ∈ seen) then removeDuplicates_loop seen output rest
      else removeDuplicates_loop ({[key]} ∪ seen) (output ++ [job]) rest
  end.

Definition removeDuplicates (jobs : list JobPosting) : list JobPosting :=
  removeDuplicates_loop ∅ [] jobs.

(** ** Role queries *)

Definition parseRoleQueries (rawRoles : option string) : list string :=
  match rawRoles with
  | None => []
  | Some raw =>
      if Js.is_empty raw then []
      else filter (fun role => Js.is_empty role = false)
                  (map Js.trim (Js.split ","%char raw))
  end.

(** ** Errors *)

Record error := { message : string; code : option string }.

Definition QUOTA_EXCEEDED_CODE : string := "SERP_QUOTA_EXCEEDED".

(** [new Error(message)] *)
Definition Error (msg : string) : error := {| message := msg; code := None |}.

Definition createQuotaExceededError (msg : string) : error :=
  {| message := msg; code := Some QUOTA_EXCEEDED_CODE |}.

Definition isQuotaExceededError (e : error) : bool :=
  bool_decide (code e = Some QUOTA_EXCEEDED_CODE).

Definition isQuotaErrorMessage (msg : field) : bool :=
  if falsy msg then false
  else
    let normalized := Js.toLowerCase (or_empty msg) in
    Js.includes "quota" normalized || Js.includes "limit" normalized ||
    Js.includes "exceeded" normalized.

(** ** Report sections *)

Definition nl : string := String (ascii_of_N 10) EmptyString.
Definition dq : string := String (ascii_of_N 34) EmptyString.

Definition NO_POSTINGS_LINE : string := "No new postings published today.".
Definition TRIGGER_DEFAULT_LINE : string :=
  "SerpAPI free tier limit reached while running this search.".
Definition TRIGGER_LAST_LINE : string :=
  "Remaining roles were skipped to avoid extra API calls.".
Definition SKIPPED_LINE : string :=
  "Skipped because the SerpAPI free tier limit was reached earlier today.".

Definition jobBlock (job : JobPosting) : string :=
  let applyUrl :=
    if falsy (apply_link job) then "Apply link unavailable"
    else or_empty (apply_link job) in
  Js.join nl
    [ "Title: " +:+ show (title job);
      "Company: " +:+ show (company_name job);
      "Location: " +:+ show (location job);
      "Posted: " +:+ show (posted_at job);
      "Apply: " +:+ applyUrl;
      "" ].

Definition formatRoleSection (roleQuery : string) (jobs : list JobPosting) : string :=
  if decide (length jobs = 0%nat) then
    Js.join nl [ "Role: " +:+ roleQuery; NO_POSTINGS_LINE ]
  else
    let jobBlocks := Js.join nl (map jobBlock jobs) in
    Js.join nl [ "Role: " +:+ roleQuery; Js.trim jobBlocks ].

Definition formatQuotaSection
    (roleQuery : string) (isTriggeredRole : bool) (details : option string) : string :=
  if isTriggeredRole then
    Js.join nl
      [ "Role: " +:+ roleQuery;
        match details with
        | Some d => if Js.is_empty d then TRIGGER_DEFAULT_LINE else d
        | None => TRIGGER_DEFAULT_LINE
        end;
        TRIGGER_LAST_LINE ]
  else
    Js.join nl [ "Role: " +:+ roleQuery; SKIPPED_LINE ].

(** ** The outside world *)

Record Email := { from : string; to : string; subject : string; text : string }.

Inductive event :=
  | EFetch (url : string)
  | ESend (m : Email)
  | ELog (s : string)
  | EConsoleError (s : string).

Definition trace := list event.

(** The JSON object of a response body, seen through the properties the
    script reads. *)
Inductive jobs_field :=
  | JobsAbsent
  | JobsNotArray (v : jsval)
  | JobsArray (jobs : list JobPosting).

Record Payload := {
  total_searches_left : jsval;
  plan_searches_left : jsval;
  searches_left : jsval;
  error_field : field;
  error_code : field;
  jobs_results : jobs_field
}.

(** [response.json()] rejects when the body is not JSON. *)
Inductive JsonBody :=
  | BadJson (msg : string)
  | Json (p : Payload).

Record Response := {
  status : Z;
  statusText : string;
  body_text : string;
  body_json : JsonBody
}.

Definition ok (r : Response) : bool :=
  (200 <=? status r) && (status r <=? 299).

(** [fetch] either rejects (the error of the engine carries no code of this
    script) or resolves to a response. *)
Inductive FetchOutcome :=
  | Rejected (msg : string)
  | Responded (r : Response).

(** The answers of the network and of the mail provider may depend on
    everything that happened before. [deliver] returns the error thrown by
    [resend.emails.send], if any. *)
Record World := {
  fetch : trace -> string -> FetchOutcome;
  deliver : trace -> Email -> option error
}.

(** ** Computations: a trace and an exception *)

Inductive result (A : Type) :=
  | Ok (a : A)
  | Throw (e : error).
Arguments Ok {A} a.
Arguments Throw {A} e.

Definition M (A : Type) : Type := trace -> trace * result A.

Definition ret {A} (a : A) : M A := fun tr => (tr, Ok a).
Definition throw {A} (e : error) : M A := fun tr => (tr, Throw e).
Definition bind {A B} (m : M A) (k : A -> M B) : M B :=
  fun tr =>
    match m tr with
    | (tr', Ok a) => k a tr'
    | (tr', Throw e) => (tr', Throw e)
    end.
Definition try_catch {A} (m : M A) (handler : error -> M A) : M A :=
  fun tr =>
    match m tr with
    | (tr', Ok a) => (tr', Ok a)
    | (tr', Throw e) => handler e tr'
    end.
Definition emit (e : event) : M unit := fun tr => (tr ++ [e], Ok tt).

Global Instance M_ret : MRet M := @ret.
Global Instance M_bind : MBind M := fun A B k m => bind m k.

Section Program.

Variable rt : Runtime.
Variable w : World.

(** [await fetch(url)]: the call is recorded, the world answers. *)
Definition do_fetch (url : string) : M FetchOutcome :=
  fun tr => (tr ++ [EFetch url], Ok (fetch w tr url)).

(** [await resend.emails.send(m)] *)
Definition send (m : Email) : M unit :=
  fun tr =>
    match deliver w tr m with
    | None => (tr ++ [ESend m], Ok tt)
    | Some e => (tr ++ [ESend m], Throw e)
    end.

Record Resend := { api_key : string }.

Definition notifySerpFailure
    (resend : option Resend) (fromAddress toAddress details : string) : M unit :=
  if bool_decide (resend = None) || Js.is_empty fromAddress || Js.is_empty toAddress
  then ret tt
  else
    try_catch
      (send {| from := fromAddress; to := toAddress;
               subject := "Daily job fetch failed"; text := details |})
      (fun notifyError =>
         emit (EConsoleError ("Failed to send failure notification: " +:+ message notifyError))).

(** ** Remaining searches *)

Definition coalesce (a b : jsval) : jsval :=
  match a with VUndefined | VNull => b | _ => a end.

(** [Number(v)] *)
Definition Number (v : jsval) : jsnum :=
  match v with
  | VUndefined => NaN
  | VNull => Fin 0
  | VBool b => Fin (if b then of_Z 1 else 0)
  | VNum n => n
  | VStr s => string_to_number rt s
  | VObject => NaN
  end.

Definition remaining_of (json : Payload) : jsnum :=
  Number (coalesce (total_searches_left json)
           (coalesce (plan_searches_left json) (searches_left json))).

Definition fetchRemainingSearches
    (serpKey : string) (resend : option Resend)
    (senderEmailAddress toEmailAddress : string) : M number :=
  let accountUrl := "https://serpapi.com/account?api_key=" +:+ serpKey in
  outcome ← do_fetch accountUrl;
  match outcome with
  | Rejected msg =>
      notifySerpFailure resend senderEmailAddress toEmailAddress
        ("SerpAPI account lookup error: " +:+ msg);;
      throw (Error msg)
  | Responded response =>
      if negb (ok response) then
        notifySerpFailure resend senderEmailAddress toEmailAddress
          ("SerpAPI account endpoint responded with status " +:+ pretty (status response)
           +:+ ": " +:+ statusText response +:+ nl +:+ body_text response);;
        throw (Error ("SerpAPI account lookup failed with status " +:+ pretty (status response)))
      else
        match body_json response with
        | BadJson msg => throw (Error msg)
        | Json json =>
            match remaining_of json with
            | Fin remaining => ret remaining
            | _ =>
                let message :=
                  "Unable to determine remaining SerpAPI searches from account response." in
                notifySerpFailure resend senderEmailAddress toEmailAddress message;;
                throw (Error message)
            end
        end
  end.

(** ** One role *)

Definition search_url (roleQuery serpKey : string) : string :=
  "https://serpapi.com/search.json?engine=google_jobs&q=" +:+
  Js.encodeURIComponent roleQuery +:+ "&api_key=" +:+ serpKey.

Definition fetchRoleResults
    (roleQuery serpKey : string) (resend : option Resend)
    (senderEmailAddress toEmailAddress : string) : M (list JobPosting) :=
  outcome ← do_fetch (search_url roleQuery serpKey);
  match outcome with
  | Rejected msg =>
      notifySerpFailure resend senderEmailAddress toEmailAddress
        ("SerpAPI request error for " +:+ dq +:+ roleQuery +:+ dq +:+ ": " +:+ msg);;
      throw (Error msg)
  | Responded response =>
      if status response =? 429 then
        throw (createQuotaExceededError
                 ("SerpAPI free tier limit reached while fetching " +:+
                  dq +:+ roleQuery +:+ dq +:+ "."))
      else if negb (ok response) then
        notifySerpFailure resend senderEmailAddress toEmailAddress
          ("SerpAPI responded with status " +:+ pretty (status response) +:+ " for " +:+
           dq +:+ roleQuery +:+ dq +:+ ": " +:+ statusText response +:+ nl +:+
           body_text response);;
        throw (Error ("SerpAPI request failed with status " +:+ pretty (status response)))
      else
        match body_json response with
        | BadJson msg => throw (Error msg)
        | Json json =>
            if negb (falsy (error_field json)) then
              let errorDetails :=
                "SerpAPI error for " +:+ dq +:+ roleQuery +:+ dq +:+ ": " +:+
                or_empty (error_field json) +:+
                (if falsy (error_code json) then ""
                 else " (" +:+ or_empty (error_code json) +:+ ")") in
              if isQuotaErrorMessage (error_field json) then
                throw (createQuotaExceededError errorDetails)
              else
                notifySerpFailure resend senderEmailAddress toEmailAddress errorDetails;;
                throw (Error errorDetails)
            else
              match jobs_results json with
              | JobsArray jobs =>
                  let todayOnly :=
                    filter (fun job => isPostedToday rt (posted_at job) = true) jobs in
                  ret (removeDuplicates todayOnly)
              | _ => ret []
              end
        end
  end.

(** ** The run *)

Record LoopState := {
  remainingSearches : number;
  sections : list string;
  hasAnyPosting : bool;
  quotaTriggered : bool;
  quotaMessageSent : bool
}.

(** ["..." + x] on a finite number: a whole number below 2^53 is written
    with its decimal digits, after a minus sign when it is negative; the
    engine writes the others. *)
Definition number_text (x : number) : string :=
  if is_safe_integer x then pretty (x / 2 ^ 1074) else number_to_string rt x.

Definition exhausted_details (totalSearchesLeft : number) : string :=
  if totalSearchesLeft =? 0 then "SerpAPI search credits are exhausted for today."
  else
    "SerpAPI only had " +:+ number_text totalSearchesLeft +:+ " search" +:+
    (if totalSearchesLeft =? of_Z 1 then "" else "es") +:+
    " available and they were used by earlier roles in this run.".

(** The branch [remainingSearches <= 0] of the loop body. *)
Definition skip_role (totalSearchesLeft : number) (st : LoopState) (role : string) : LoopState :=
  let isFirstQuotaNotice := negb (quotaMessageSent st) in
  let details :=
    if isFirstQuotaNotice then Some (exhausted_details totalSearchesLeft) else None in
  {| remainingSearches := remainingSearches st;
     sections := sections st ++ [formatQuotaSection role isFirstQuotaNotice details];
     hasAnyPosting := hasAnyPosting st;
     quotaTriggered := true;
     quotaMessageSent := true |}.

(** The [try] block after a search that returned [jobs]. *)
Definition record_jobs (st : LoopState) (role : string) (jobs : list JobPosting) : LoopState :=
  {| remainingSearches := number_sub (remainingSearches st) (of_Z 1);
     sections := sections st ++ [formatRoleSection role jobs];
     hasAnyPosting := if decide (0 < length jobs)%nat then true else hasAnyPosting st;
     quotaTriggered := quotaTriggered st;
     quotaMessageSent := quotaMessageSent st |}.

(** The [catch] block on a quota error. *)
Definition record_quota (st : LoopState) (role : string) (e : error) : LoopState :=
  {| remainingSearches := 0;
     sections := sections st ++ [formatQuotaSection role true (Some (message e))];
     hasAnyPosting := hasAnyPosting st;
     quotaTriggered := true;
     quotaMessageSent := true |}.

Section Loop.

Variables (serpKey : string) (resend : option Resend).
Variables (senderEmailAddress toEmailAddress : string).
Variable totalSearchesLeft : number.

Definition loop_body (st : LoopState) (role : string) : M LoopState :=
  if remainingSearches st <=? 0 then ret (skip_role totalSearchesLeft st role)
  else
    try_catch
      (jobs ← fetchRoleResults role serpKey resend senderEmailAddress toEmailAddress;
       ret (record_jobs st role jobs))
      (fun e =>
         if isQuotaExceededError e then ret (record_quota st role e)
         else throw e).

(** [for (index = 0; index < roleQueries.length; index += 1)] *)
Fixpoint for_roles (st : LoopState) (roleQueries : list string) : M LoopState :=
  match roleQueries with
  | [] => ret st
  | role :: rest => st' ← loop_body st role; for_roles st' rest
  end.

End Loop.

Record Env := {
  SERPAPI_KEY : option string;
  RESEND_API_KEY : option string;
  SENDER_EMAIL_ADDRESS : option string;
  TO_EMAIL_ADDRESS : option string;
  ROLE_QUERY : option string
}.

(** [!v] on a variable of the environment. *)
Definition unset (v : option string) : bool :=
  match v with Some s => Js.is_empty s | None => true end.

Definition initial_state (totalSearchesLeft : number) : LoopState :=
  {| remainingSearches := totalSearchesLeft;
     sections := [];
     hasAnyPosting := false;
     quotaTriggered := false;
     quotaMessageSent := false |}.

Definition report (senderEmailAddress toEmailAddress : string) (sections : list string) : Email :=
  {| from := senderEmailAddress; to := toEmailAddress;
     subject := "Latest job postings"; text := Js.join (nl +:+ nl) sections |}.

(** What [fetchJobs] does once the loop is over. *)
Definition finish (senderEmailAddress toEmailAddress : string) (st : LoopState) : M unit :=
  if negb (quotaTriggered st) && negb (hasAnyPosting st)
  then emit (ELog "No postings today")
  else
    send (report senderEmailAddress toEmailAddress (sections st));;
    emit (ELog "Email sent").

Definition fetchJobs (env : Env) : M unit :=
  let serpKey := default "" (SERPAPI_KEY env) in
  let resendKey := default "" (RESEND_API_KEY env) in
  let senderEmailAddress := default "" (SENDER_EMAIL_ADDRESS env) in
  let toEmailAddress := default "" (TO_EMAIL_ADDRESS env) in
  let roleEnvValue := ROLE_QUERY env in
  if unset (SERPAPI_KEY env) || unset (RESEND_API_KEY env) ||
     unset (SENDER_EMAIL_ADDRESS env) || unset (TO_EMAIL_ADDRESS env)
  then throw (Error "One or more environment variables are missing")
  else if unset roleEnvValue
  then throw (Error "ROLE_QUERY must be set with one or more comma-separated role queries")
  else
    let roleQueries := parseRoleQueries roleEnvValue in
    if decide (length roleQueries = 0%nat)
    then throw (Error "ROLE_QUERY must include at least one non-empty role query")
    else
      let resend := Some {| api_key := resendKey |} in
      totalSearchesLeft ←
        fetchRemainingSearches serpKey resend senderEmailAddress toEmailAddress;
      st ← for_roles serpKey resend senderEmailAddress toEmailAddress totalSearchesLeft
             (initial_state totalSearchesLeft) roleQueries;
      finish senderEmailAddress toEmailAddress st.

(** The last statement of the script: the exit status of the process. *)
Definition main (env : Env) : trace * Z :=
  match fetchJobs env [] with
  | (tr, Ok _) => (tr, 0)
  | (tr, Throw err) => (tr ++ [EConsoleError (message err)], 1)
  end.

End Program.

(** ** A runtime for the examples

    The zone of the process is UTC and the clock reads 15 June 2025.
    [new Date(s)] accepts the UTC forms of the ECMAScript date-time string
    format ([YYYY-MM-DD], and [YYYY-MM-DDTHH:mm:ss] with an optional
    fraction, followed by [Z]) and yields an invalid date on any other
    input; [Number(s)] accepts an optionally signed run of decimal digits
    around which white space is trimmed, and rounds the whole number it
    reads to a double; the decimal form of a number that is no whole number
    below 2^53 is not computed, it is written as a count of units, which no
    engine prints.  The examples stay inside the inputs on which an engine
    agrees with it. *)

Module Reference.

Definition digit (c : ascii) : option Z :=
  if Js.between 48 57 c then Some (Z.of_N (Js.code c) - 48) else None.

(** Exactly [n] digits, read as a number, and what follows them. *)
Fixpoint digits (n : nat) (acc : Z) (s : string) : option (Z * string) :=
  match n with
  | O => Some (acc, s)
  | S n' =>
      match s with
      | String c s' =>
          match digit c with
          | Some d => digits n' (10 * acc + d) s'
          | None => None
          end
      | EmptyString => None
      end
  end.

Definition expect (c : ascii) (s : string) : option string :=
  match s with
  | String c' s' => if decide (c = c') then Some s' else None
  | EmptyString => None
  end.

Definition leap (y : Z) : bool :=
  ((y mod 4 =? 0) && negb (y mod 100 =? 0)) || (y mod 400 =? 0).

Definition days_in_month (y m : Z) : Z :=
  if m =? 2 then (if leap y then 29 else 28)
  else if (m =? 4) || (m =? 6) || (m =? 9) || (m =? 11) then 30 else 31.

Definition valid_day (y m d : Z) : bool :=
  (1 <=? m) && (m <=? 12) && (1 <=? d) && (d <=? days_in_month y m).

Definition time_of_day (s : string) : bool :=
  match digits 2 0 s with
  | Some (hh, s1) =>
      match expect ":" s1 ≫= digits 2 0 with
      | Some (mm, s2) =>
          match expect ":" s2 ≫= digits 2 0 with
          | Some (ss, s3) =>
              let zone :=
                match expect "." s3 ≫= digits 3 0 with
                | Some (_, s4) => s4
                | None => s3
                end in
              (hh <=? 23) && (mm <=? 59) && (ss <=? 59) &&
              bool_decide (zone = "Z")
          | None => false
          end
      | None => false
      end
  | None => false
  end.

Definition parse_utc (s : string) : option ymd :=
  '(y, s1) ← digits 4 0 s;
  '(m, s2) ← expect "-" s1 ≫= digits 2 0;
  '(d, s3) ← expect "-" s2 ≫= digits 2 0;
  if valid_day y m d &&
     (Js.is_empty s3 ||
      match expect "T" s3 with Some t => time_of_day t | None => false end)
  then Some {| year := y; month := m; day := d |}
  else None.

Fixpoint all_digits (acc : Z) (s : string) : option Z :=
  match s with
  | EmptyString => Some acc
  | String c s' =>
      match digit c with
      | Some d => all_digits (10 * acc + d) s'
      | None => None
      end
  end.

(** The largest double, (2^53 - 1) * 2^971. *)
Definition max_double : number := of_Z ((2 ^ 53 - 1) * 2 ^ 971).

Definition double_of_integer (n : Z) : jsnum :=
  let x := round_to_double (of_Z n) in
  if Z.abs x <=? max_double then Fin x else Inf (n <? 0).

Definition integer_of_string (s : string) : jsnum :=
  match Js.trim s with
  | EmptyString => Fin 0
  | String c rest as t =>
      let '(negative, body) :=
        if decide (c = "-"%char) then (true, rest)
        else if decide (c = "+"%char) then (false, rest) else (false, t) in
      match body with
      | EmptyString => NaN
      | _ =>
          match all_digits 0 body with
          | Some n => double_of_integer (if negative then - n else n)
          | None => NaN
          end
      end
  end.

Definition runtime : Runtime :=
  {| date_parse := parse_utc;
     date_now := {| year := 2025; month := 6; day := 15 |};
     string_to_number := integer_of_string;
     number_to_string := fun x => pretty x +:+ " units" |}.

End Reference.

(** ** Worlds for the examples *)

Module Example.

Definition nothing : Payload :=
  {| total_searches_left := VUndefined; plan_searches_left := VUndefined;
     searches_left := VUndefined; error_field := Undefined; error_code := Undefined;
     jobs_results := JobsAbsent |}.

Definition respond (code : Z) (reason : string) (p : Payload) : FetchOutcome :=
  Responded {| status := code; statusText := reason; body_text := "{}"; body_json := Json p |}.

(** The account endpoint reporting [n] searches. *)
Definition credits (n : Z) : FetchOutcome :=
  respond 200 "OK"
    {| total_searches_left := VNum (Fin (of_Z n)); plan_searches_left := VUndefined;
       searches_left := VUndefined; error_field := Undefined; error_code := Undefined;
       jobs_results := JobsAbsent |}.

(** The search endpoint returning [jobs]. *)
Definition listing (jobs : list JobPosting) : FetchOutcome :=
  respond 200 "OK"
    {| total_searches_left := VUndefined; plan_searches_left := VUndefined;
       searches_left := VUndefined; error_field := Undefined; error_code := Undefined;
       jobs_results := JobsArray jobs |}.

Definition too_many_requests : FetchOutcome :=
  Responded {| status := 429; statusText := "Too Many Requests";
               body_text := ""; body_json := BadJson "Unexpected end of JSON input" |}.

Definition posting (t c when : string) : JobPosting :=
  {| title := Str t; company_name := Str c; location := Str "Toronto";
     posted_at := Str when; apply_link := Undefined |}.

Definition serpKey : string := "k".
Definition sender : string := "jobs@example.com".
Definition recipient : string := "me@example.com".
Definition resend : option Resend := Some {| api_key := "re_1" |}.

Definition env : Env :=
  {| SERPAPI_KEY := Some serpKey; RESEND_API_KEY := Some "re_1";
     SENDER_EMAIL_ADDRESS := Some sender; TO_EMAIL_ADDRESS := Some recipient;
     ROLE_QUERY := Some "A, B, C" |}.

Fixpoint answer (answers : list (string * FetchOutcome)) (url : string) : FetchOutcome :=
  match answers with
  | [] => Rejected "fetch failed"
  | (u, o) :: rest => if decide (u = url) then o else answer rest url
  end.

(** A world that answers the account endpoint with [account], the search
    for each role as listed, and accepts every mail. *)
Definition scripted (account : FetchOutcome) (searches : list (string * FetchOutcome)) : World :=
  {| fetch := fun _ url =>
       answer (("https://serpapi.com/account?api_key=" +:+ serpKey, account) ::
               map (fun a => (search_url a.1 serpKey, a.2)) searches) url;
     deliver := fun _ _ => None |}.

End Example.

(** * Vocabulary of the statements *)

(** [s] contains [t], in any letter case. *)
Definition has_text (t s : string) : Prop :=
  exists pre t' post, s = pre +:+ t' +:+ post /\ Js.toLowerCase t' = t.

(** [s] contains [w], in any letter case, as a whole word: the code units
    next to the occurrence, if any, are not word characters. *)
Definition has_word (w s : string) : Prop :=
  exists pre w' post,
    s = pre +:+ w' +:+ post /\ Js.toLowerCase w' = w /\
    Js.is_word (Js.last_of None pre) = false /\ Js.is_word (Js.head post) = false.

Fixpoint all_chars (P : ascii -> bool) (s : string) : bool :=
  match s with
  | EmptyString => true
  | String c s' => P c && all_chars P s'
  end.




(** The string on which [isPostedToday] tries its patterns. *)
Definition sanitized (raw : string) : string :=
  Js.replace_dot_comma (Js.trim (Js.toLowerCase raw)).

(** The comparison of [getFullYear], [getMonth] and [getDate]. *)
Definition same_day (a b : ymd) : bool :=
  (year a =? year b) && (month a =? month b) && (day a =? day b).

(** [a] and [b] differ only by letter case and by white space at their
    ends. *)
Definition alike (a b : string) : Prop :=
  exists l1 r1 l2 r2 a' b',
    a = l1 +:+ a' +:+ r1 /\ b = l2 +:+ b' +:+ r2 /\
    all_chars Js.is_space l1 = true /\ all_chars Js.is_space r1 = true /\
    all_chars Js.is_space l2 = true /\ all_chars Js.is_space r2 = true /\
    Js.toLowerCase a' = Js.toLowerCase b'.

(** The field of the account response that decides: the first of
    [total_searches_left], [plan_searches_left] and [searches_left] that is
    neither absent nor null, and [searches_left] itself when the first two
    are absent or null. *)
Definition nullish (v : jsval) : bool :=
  match v with VUndefined | VNull => true | _ => false end.

Definition chosen (p : Payload) : jsval :=
  match filter (fun v => nullish v = false)
               [total_searches_left p; plan_searches_left p] with
  | v :: _ => v
  | [] => searches_left p
  end.

(** The failure notice of [notifySerpFailure]. *)
Definition notice (fromAddress toAddress details : string) : Email :=
  {| from := fromAddress; to := toAddress;
     subject := "Daily job fetch failed"; text := details |}.

(** A best-effort notification: the notice is handed to the mail provider
    and, should the provider fail, the failure is logged and goes no
    further. *)
Definition notified (tr : trace) (m : Email) (tr' : trace) : Prop :=
  tr' = tr ++ [ESend m] \/ exists msg, tr' = tr ++ [ESend m; EConsoleError msg].

(** The mails handed to the provider in a trace. *)
Definition sent (tr : trace) : list Email :=
  omap (fun e => match e with ESend m => Some m | _ => None end) tr.

(** The searches issued in a trace. *)
Definition fetched (tr : trace) : list string :=
  omap (fun e => match e with EFetch url => Some url | _ => None end) tr.

(** [s] is a section written for [role]. *)
Inductive is_section_of (role : string) : string -> Prop :=
  | section_of_search jobs : is_section_of role (formatRoleSection role jobs)
  | section_of_quota triggered details :
      is_section_of role (formatQuotaSection role triggered details).

Definition starts_with_role (role s : string) : Prop :=
  exists body, s = "Role: " +:+ role +:+ nl +:+ body.

(** The environment is complete: the four settings are present and the role
    setting yields [roles], not empty. *)
Record configured (env : Env)
    (serpKey resendKey sender recipient : string) (roles : list string) : Prop := {
  cfg_serp : SERPAPI_KEY env = Some serpKey;
  cfg_resend : RESEND_API_KEY env = Some resendKey;
  cfg_sender : SENDER_EMAIL_ADDRESS env = Some sender;
  cfg_recipient : TO_EMAIL_ADDRESS env = Some recipient;
  cfg_serp_set : serpKey <> "";
  cfg_resend_set : resendKey <> "";
  cfg_sender_set : sender <> "";
  cfg_recipient_set : recipient <> "";
  cfg_roles : parseRoleQueries (ROLE_QUERY env) = roles;
  cfg_roles_set : roles <> []
}.

(** A run of the loop without event: every role is searched, no search ends
    on an error, and no search yields a posting. *)
Fixpoint quiet (rt : Runtime) (w : World) (serpKey : string) (resend : option Resend)
    (sender recipient : string) (st : LoopState) (roles : list string) (tr : trace) : Prop :=
  match roles with
  | [] => True
  | role :: rest =>
      0 < remainingSearches st /\
      exists tr',
        fetchRoleResults rt w role serpKey resend sender recipient tr = (tr', Ok []) /\
        quiet rt w serpKey resend sender recipient (record_jobs st role []) rest tr'
  end.

(** The state in which the loop leaves [st] when it skips every role of
    [roles] after the quota notice has been given. *)
Definition skipped_all (st : LoopState) (roles : list string) : LoopState :=
  {| remainingSearches := remainingSearches st;
     sections := sections st ++ map (fun role => formatQuotaSection role false None) roles;
     hasAnyPosting := hasAnyPosting st;
     quotaTriggered := quotaTriggered st;
     quotaMessageSent := quotaMessageSent st |}.

(** The text [errorDetails] that [fetchRoleResults] builds from an error
    payload. *)
Definition errorDetails_of (role : string) (p : Payload) : string :=
  "SerpAPI error for " +:+ dq +:+ role +:+ dq +:+ ": " +:+
  or_empty (error_field p) +:+
  (if falsy (error_code p) then ""
   else " (" +:+ or_empty (error_code p) +:+ ")").

(** A response that the script reads as an exhausted quota: status 429, or
    a successful response whose JSON carries an error text containing
    "quota", "limit" or "exceeded" in any letter case. *)
Definition quota_response (r : Response) : Prop :=
  status r = 429 \/
  (ok r = true /\ exists p msg,
     body_json r = Json p /\ error_field p = Str msg /\
     (has_text "quota" msg \/ has_text "limit" msg \/ has_text "exceeded" msg)).

(** An answer of the network that is an error but no exhausted quota: the
    request fails, or the status is neither a success nor 429, or a
    successful response carries an error text without any of the three
    words. *)
Definition fatal_outcome (o : FetchOutcome) : Prop :=
  match o with
  | Rejected _ => True
  | Responded r =>
      (status r <> 429 /\ ok r = false) \/
      (ok r = true /\ exists p msg,
         body_json r = Json p /\ error_field p = Str msg /\ msg <> "" /\
         ~ has_text "quota" msg /\ ~ has_text "limit" msg /\ ~ has_text "exceeded" msg)
  end.

(** A successful answer whose body is not JSON, on which [response.json()]
    rejects. *)
Definition unreadable (o : FetchOutcome) : Prop :=
  match o with
  | Rejected _ => False
  | Responded r => ok r = true /\ exists msg, body_json r = BadJson msg
  end.

(** The message of the quota error that [fetchRoleResults] throws on the
    response [r]: the text for status 429, and otherwise the text built
    from the error payload. *)
Definition quota_details (role : string) (r : Response) : string :=
  if status r =? 429 then
    "SerpAPI free tier limit reached while fetching " +:+ dq +:+ role +:+ dq +:+ "."
  else
    match body_json r with
    | Json p => errorDetails_of role p
    | BadJson _ => ""
    end.

(** The whole searches that [x] amounts to: the least whole number that is
    not below [x]. *)
Definition ceiling (x : number) : Z := - (- x / 2 ^ 1074).

(** The requests of a run: none, or the account lookup followed by the
    searches for the first roles of the list, one each, in order. *)
Definition requests_of_run (serpKey : string) (roles : list string) (urls : list string) : Prop :=
  urls = [] \/
  exists searched,
    searched `prefix_of` roles /\
    urls = ("https://serpapi.com/account?api_key=" +:+ serpKey) ::
           ((fun role => search_url role serpKey) <$> searched).

(** [n] subtractions of one, as the loop performs them. *)
Definition countdown (n : nat) (x : number) : number :=
  Nat.iter n (fun y => number_sub y (of_Z 1)) x.

(** A string without the separator of role queries. *)
Definition comma_free (s : string) : bool :=
  all_chars (fun c => negb (bool_decide (c = ","%char))) s.

(** A role query as [parseRoleQueries] returns them: not empty, without
    white space at its ends, without a comma. *)
Definition well_formed_role (role : string) : Prop :=
  role <> "" /\ Js.trim role = role /\ comma_free role = true.

(** The value of an upper-case hexadecimal digit. *)
Definition hex_value (c : ascii) : N :=
  if Js.between 48 57 c then Js.code c - 48 else Js.code c - 55.

(** Reading back the first code unit of an encoded URI component: a code
    unit that stands for itself, or one or two escaped bytes. *)
Definition decode_step (s : string) : option (ascii * string) :=
  match s with
  | EmptyString => None
  | String c rest =>
      if decide (c = "%"%char) then
        match rest with
        | String h1 (String h2 rest1) =>
            let n := (16 * hex_value h1 + hex_value h2)%N in
            if (n <? 128)%N then Some (ascii_of_N n, rest1)
            else
              match rest1 with
              | String _ (String h3 (String h4 rest2)) =>
                  let m := (16 * hex_value h3 + hex_value h4)%N in
                  Some (ascii_of_N ((n - 192) * 64 + (m - 128)), rest2)
              | _ => None
              end
        | _ => None
        end
      else Some (c, rest)
  end.

(** The code units of an encoded URI component. *)
Definition uri_safe (c : ascii) : bool :=
  Js.uri_unreserved c || bool_decide (c = "%"%char).

(** The mails of a piece of trace are none, or one failure notice. *)
Definition at_most_a_notice (sender recipient : string) (evs : trace) : Prop :=
  sent evs = [] \/ exists details, sent evs = [notice sender recipient details].

(** The events of a request: the request, then at most a notice, and
    nothing after the request when the call returns or when it throws an
    error that [quiet_error] accepts. *)
Definition request_events {A} (sender recipient : string) (quiet_error : error -> bool)
    (tr : trace) (url : string) (out : trace * result A) : Prop :=
  exists rest,
    out.1 = tr ++ EFetch url :: rest /\
    fetched rest = [] /\
    at_most_a_notice sender recipient rest /\
    match out.2 with
    | Ok _ => rest = []
    | Throw e => quiet_error e = true -> rest = []
    end.

(** * The model on small inputs *)

Example trim_and_lower : Js.toLowerCase (Js.trim "  Staff Engineer ") = "staff engineer".
Proof. reflexivity. Qed.

Example split_keeps_empty_pieces : Js.split "," "a,,b," = ["a"; ""; "b"; ""].
Proof. reflexivity. Qed.

Example parseRoleQueries_drops_blanks :
  parseRoleQueries (Some " Eng Mgr , , Staff Eng ") = ["Eng Mgr"; "Staff Eng"].
Proof. reflexivity. Qed.

Example encodeURIComponent_query :
  Js.encodeURIComponent "Staff Engineer (remote) & more"
  = "Staff%20Engineer%20(remote)%20%26%20more".
Proof. reflexivity. Qed.

Example whole_word_only :
  map (Js.test_bounded "min") ["5 min ago"; "5 mins ago"; "minuteman"; "(min)"; "admin"]
  = [true; false; false; true; false].
Proof. reflexivity. Qed.

Example isPostedToday_samples :
  map (isPostedToday Reference.runtime)
    [Undefined; Null; Str ""; Str "3 hours ago"; Str " 12 Mins. ago"; Str "Just now";
     Str "30 days ago"; Str "2025-06-15"; Str "2025-06-16T00:00:00Z"]
  = [false; false; false; true; true; true; false; true; false].
Proof. reflexivity. Qed.

Example removeDuplicates_sample :
  removeDuplicates
    [Example.posting "Staff Engineer" "Acme" "today";
     Example.posting "Data Engineer" "Acme" "today";
     Example.posting " staff engineer" "ACME " "1 hour ago"]
  = [Example.posting "Staff Engineer" "Acme" "today";
     Example.posting "Data Engineer" "Acme" "today"].
Proof. reflexivity. Qed.

Example formatRoleSection_sample :
  formatRoleSection "A" [Example.posting "Staff Engineer" "Acme" "today"]
  = "Role: A" +:+ nl +:+ "Title: Staff Engineer" +:+ nl +:+ "Company: Acme" +:+ nl +:+
    "Location: Toronto" +:+ nl +:+ "Posted: today" +:+ nl +:+
    "Apply: Apply link unavailable".
Proof. reflexivity. Qed.

(** Three roles, one search granted: A is searched, B carries the notice,
    C is skipped, and one mail leaves. *)
Example number_sub_samples :
  number_sub (of_Z 2) (of_Z 1) = of_Z 1 /\
  number_sub (5 * 2 ^ 1073) (of_Z 1) = 3 * 2 ^ 1073 /\
  number_sub (of_Z (2 ^ 53 + 2)) (of_Z 1) = of_Z (2 ^ 53) /\
  number_sub (of_Z (2 ^ 54)) (of_Z 1) = of_Z (2 ^ 54) /\
  number_sub 1 (of_Z 1) = of_Z (-1).
Proof. vm_compute. repeat split. Qed.

Example exhausted_details_samples :
  exhausted_details Reference.runtime (of_Z 1) =
    "SerpAPI only had 1 search available and they were used by earlier roles in this run." /\
  exhausted_details Reference.runtime (of_Z (-3)) =
    "SerpAPI only had -3 searches available and they were used by earlier roles in this run." /\
  exhausted_details Reference.runtime 0 = "SerpAPI search credits are exhausted for today.".
Proof. vm_compute. repeat split. Qed.

Example main_sample :
  main Reference.runtime
    (Example.scripted (Example.credits 1)
       [("A", Example.listing [Example.posting "Staff Engineer" "Acme" "today"])])
    Example.env
  = ([ EFetch "https://serpapi.com/account?api_key=k";
       EFetch "https://serpapi.com/search.json?engine=google_jobs&q=A&api_key=k";
       ESend (report Example.sender Example.recipient
                [ formatRoleSection "A" [Example.posting "Staff Engineer" "Acme" "today"];
                  "Role: B" +:+ nl +:+
                  "SerpAPI only had 1 search available and they were used by earlier roles in this run."
                  +:+ nl +:+ TRIGGER_LAST_LINE;
                  "Role: C" +:+ nl +:+ SKIPPED_LINE ]);
       ELog "Email sent" ], 0).
Proof. vm_compute. reflexivity. Qed.

(** * Facts about the string operations *)

Module JsFacts.
Import Js.

Ltac each_char c := destruct c as [[] [] [] [] [] [] [] []]; vm_compute; try reflexivity.

Lemma is_space_lower c : is_space (lower_char c) = is_space c.
Proof. each_char c. Qed.

Lemma is_word_lower c : is_word_char (lower_char c) = is_word_char c.
Proof. each_char c. Qed.

Lemma space_not_word c : is_space c = true -> is_word_char c = false.
Proof. each_char c; discriminate. Qed.

Lemma app_cons c a b : String c a +:+ b = String c (a +:+ b).
Proof. reflexivity. Qed.

Lemma app_nil_l s : "" +:+ s = s.
Proof. reflexivity. Qed.

Lemma app_nil_r s : s +:+ "" = s.
Proof. induction s as [|c s IH]; [done|]. by rewrite app_cons, IH. Qed.

Lemma app_assoc a b c : (a +:+ b) +:+ c = a +:+ b +:+ c.
Proof. induction a as [|x a IH]; [done|]. by rewrite !app_cons, IH. Qed.

Lemma toLowerCase_app a b : toLowerCase (a +:+ b) = toLowerCase a +:+ toLowerCase b.
Proof. induction a as [|x a IH]; [done|]. rewrite app_cons. simpl. by rewrite IH. Qed.

Lemma replace_dot_comma_app a b :
  replace_dot_comma (a +:+ b) = replace_dot_comma a +:+ replace_dot_comma b.
Proof. induction a as [|x a IH]; [done|]. rewrite app_cons. simpl. by rewrite IH. Qed.

Lemma strip_prefix_app p s : strip_prefix p (p +:+ s) = Some s.
Proof. induction p as [|x p IH]; [done|]. rewrite app_cons. simpl. by rewrite decide_True. Qed.

Lemma strip_prefix_Some p s r : strip_prefix p s = Some r -> s = p +:+ r.
Proof.
  revert s. induction p as [|a p IH]; intros s; simpl.
  - intros [= ->]. reflexivity.
  - destruct s as [|b s]; [done|]. case_decide; [|done].
    intros Hr%IH. subst. by rewrite app_cons.
Qed.

Lemma includes_app a sub b : includes sub (a +:+ sub +:+ b) = true.
Proof.
  induction a as [|c a IH].
  - rewrite app_nil_l. destruct sub as [|x sub]; [by destruct b|].
    rewrite app_cons. simpl. by rewrite decide_True, strip_prefix_app.
  - rewrite app_cons. simpl. rewrite IH. by destruct (strip_prefix _ _).
Qed.

Lemma includes_true sub s :
  includes sub s = true -> exists a b, s = a +:+ sub +:+ b.
Proof.
  induction s as [|c s IH]; simpl.
  - destruct (strip_prefix sub "") eqn:E; [|done].
    intros _. exists "", s. by apply strip_prefix_Some in E.
  - destruct (strip_prefix sub (String c s)) eqn:E.
    + intros _. exists "", s0. by apply strip_prefix_Some in E.
    + intros (a & b & ->)%IH. by exists (String c a), b.
Qed.

(** *** Trimming *)

Lemma trimEnd_cons_nonspace c s :
  is_space c = false -> trimEnd (String c s) = String c (trimEnd s).
Proof. intros H. simpl. rewrite H. by destruct (trimEnd s). Qed.

Lemma trimEnd_cons_nonempty c s :
  trimEnd s <> "" -> trimEnd (String c s) = String c (trimEnd s).
Proof. intros H. simpl. by destruct (trimEnd s). Qed.

Lemma last_of_cons p q c s : last_of p (String c s) = last_of q (String c s).
Proof. reflexivity. Qed.

Lemma trimStart_app_nonspace a c m :
  is_space c = false -> trimStart (a +:+ String c m) = trimStart a +:+ String c m.
Proof.
  intros Hc. induction a as [|x a IH].
  - rewrite app_nil_l. simpl. by rewrite Hc.
  - rewrite app_cons. simpl. destruct (is_space x); [exact IH|reflexivity].
Qed.

Lemma trimEnd_app_nonempty a m :
  trimEnd m <> "" -> trimEnd (a +:+ m) = a +:+ trimEnd m.
Proof.
  intros Hm. induction a as [|x a IH]; [done|].
  rewrite !app_cons, trimEnd_cons_nonempty; rewrite IH; [done|].
  destruct a; [done|]. by rewrite app_cons.
Qed.

Lemma trimEnd_keeps m d b :
  last_of None m = Some d -> is_space d = false ->
  trimEnd (m +:+ b) = m +:+ trimEnd b.
Proof.
  intros Hl Hd. induction m as [|x m IH]; [done|].
  rewrite !app_cons. destruct m as [|y m].
  - injection Hl as ->. rewrite !app_nil_l. by apply trimEnd_cons_nonspace.
  - rewrite trimEnd_cons_nonempty; rewrite IH; [done | | done | ];
      first [by rewrite app_cons | exact Hl].
Qed.

(** How [trim] acts around a piece that starts and ends with a code unit
    that is not white space. *)
Lemma trim_around a c m d b :
  is_space c = false -> last_of None (String c m) = Some d -> is_space d = false ->
  trim (a +:+ String c m +:+ b) = trimStart a +:+ String c m +:+ trimEnd b.
Proof.
  intros Hc Hl Hd. unfold trim.
  rewrite app_cons, trimStart_app_nonspace by done.
  rewrite <- app_cons.
  assert (trimEnd (String c m +:+ b) = String c m +:+ trimEnd b) as E
    by (by eapply trimEnd_keeps).
  rewrite trimEnd_app_nonempty; rewrite E; [done|]. by rewrite app_cons.
Qed.

Lemma is_word_last_trimStart a :
  is_word (last_of None (trimStart a)) = is_word (last_of None a).
Proof.
  induction a as [|x a IH]; [done|]. simpl.
  destruct (is_space x) eqn:Hx; [|done]. rewrite IH.
  destruct a; [|done]. simpl. by rewrite space_not_word.
Qed.

Lemma is_word_head_trimEnd b : is_word (head (trimEnd b)) = is_word (head b).
Proof.
  destruct b as [|x b]; [done|]. simpl.
  destruct (trimEnd b); [|done].
  destruct (is_space x) eqn:Hx; [|done]. simpl. by rewrite space_not_word.
Qed.

Lemma is_word_sanitized c :
  is_word_char (if decide (c = "."%char) then " "%char
                else if decide (c = ","%char) then " "%char else c)
  = is_word_char c.
Proof. each_char c. Qed.

Lemma is_word_last_lower p a :
  is_word (last_of (lower_char <$> p) (toLowerCase a)) = is_word (last_of p a).
Proof.
  revert p. induction a as [|x a IH]; intros p; simpl.
  - destruct p; [apply is_word_lower|done].
  - apply (IH (Some x)).
Qed.

Lemma is_word_head_lower b : is_word (head (toLowerCase b)) = is_word (head b).
Proof. destruct b; [done|]. apply is_word_lower. Qed.

Lemma is_word_last_sanitized a :
  is_word (last_of None (replace_dot_comma a)) = is_word (last_of None a).
Proof.
  assert (forall p q, is_word p = is_word q ->
    is_word (last_of p (replace_dot_comma a)) = is_word (last_of q a)) as G.
  { induction a as [|x a IH]; intros p q Hpq; [done|]. simpl.
    apply IH. apply is_word_sanitized. }
  by apply G.
Qed.

Lemma is_word_head_sanitized b :
  is_word (head (replace_dot_comma b)) = is_word (head b).
Proof. destruct b; [done|]. apply is_word_sanitized. Qed.

(** *** Whole words *)

Lemma test_bounded_from_app prev a lit b :
  is_word (head lit) = true -> is_word (last_of None lit) = true ->
  is_word (last_of prev a) = false -> is_word (head b) = false ->
  test_bounded_from prev lit (a +:+ lit +:+ b) = true.
Proof.
  intros Hh Hl. revert prev. induction a as [|x a IH]; intros prev Ha Hb.
  - rewrite app_nil_l. simpl in Ha.
    assert (bounded_here prev lit (lit +:+ b) = true) as E.
    { unfold bounded_here, word_boundary. rewrite strip_prefix_app.
      destruct lit as [|c lit]; [done|]. rewrite app_cons.
      rewrite (last_of_cons prev None). simpl in *. by rewrite Ha, Hh, Hl, Hb. }
    destruct (lit +:+ b); simpl; by rewrite E.
  - rewrite app_cons. simpl. rewrite IH; [|done..]. apply orb_true_r.
Qed.


(** *** Strings over a restricted alphabet *)

Lemma all_chars_app P a b : all_chars P (a +:+ b) = all_chars P a && all_chars P b.
Proof.
  induction a as [|x a IH]; [done|]. rewrite app_cons. simpl.
  by rewrite IH, andb_assoc.
Qed.


Lemma all_chars_trimStart P s : all_chars P s = true -> all_chars P (trimStart s) = true.
Proof.
  induction s as [|c s IH]; [done|]. simpl.
  intros [Hc Hs]%andb_prop. destruct (is_space c); [auto|]. simpl. by rewrite Hc, Hs.
Qed.

Lemma all_chars_trimEnd P s : all_chars P s = true -> all_chars P (trimEnd s) = true.
Proof.
  induction s as [|c s IH]; [done|]. simpl.
  intros [Hc Hs]%andb_prop. specialize (IH Hs).
  destruct (trimEnd s).
  - destruct (is_space c); [done|]. simpl. by rewrite Hc.
  - simpl in *. by rewrite Hc, IH.
Qed.

Lemma all_chars_trim P s : all_chars P s = true -> all_chars P (trim s) = true.
Proof. intros. by apply all_chars_trimEnd, all_chars_trimStart. Qed.



(** *** Containment in any letter case *)

Lemma toLowerCase_split s a b :
  toLowerCase s = a +:+ b ->
  exists s1 s2, s = s1 +:+ s2 /\ toLowerCase s1 = a /\ toLowerCase s2 = b.
Proof.
  revert s. induction a as [|c a IH]; intros s E.
  - by exists "", s.
  - destruct s as [|x s]; [done|]. rewrite app_cons in E. simpl in E.
    injection E as Hx E. destruct (IH _ E) as (s1 & s2 & -> & <- & <-).
    exists (String x s1), s2. simpl. by rewrite Hx.
Qed.

Lemma includes_lower_has_text t s :
  includes t (toLowerCase s) = true <-> has_text t s.
Proof.
  split.
  - intros (a & b & E)%includes_true.
    apply toLowerCase_split in E as (pre & rest & -> & <- & E).
    apply toLowerCase_split in E as (t' & post & -> & <- & _).
    by exists pre, t', post.
  - intros (pre & t' & post & -> & <-). rewrite !toLowerCase_app. apply includes_app.
Qed.

End JsFacts.

(** * Facts about numbers *)

Section Numbers.

Lemma of_Z_0 : of_Z 0 = 0.
Proof. reflexivity. Qed.

Lemma of_Z_le a b : of_Z a <= of_Z b <-> a <= b.
Proof. unfold of_Z. assert (0 < 2 ^ 1074) by (apply Z.pow_pos_nonneg; lia). nia. Qed.

Lemma of_Z_lt a b : of_Z a < of_Z b <-> a < b.
Proof. unfold of_Z. assert (0 < 2 ^ 1074) by (apply Z.pow_pos_nonneg; lia). nia. Qed.

Lemma ceiling_of_Z n : ceiling (of_Z n) = n.
Proof.
  unfold ceiling, of_Z. rewrite <- Z.mul_opp_l, Z.div_mul; [lia|].
  apply Z.pow_nonzero; lia.
Qed.

Lemma ceiling_above x : x <= of_Z (ceiling x).
Proof.
  unfold ceiling, of_Z. assert (0 < 2 ^ 1074) as H by (apply Z.pow_pos_nonneg; lia).
  pose proof (Z.mul_div_le (- x) _ H). lia.
Qed.

Lemma ceiling_least x n : x <= of_Z n -> ceiling x <= n.
Proof.
  unfold ceiling, of_Z. intros Hx.
  assert (0 < 2 ^ 1074) as H by (apply Z.pow_pos_nonneg; lia).
  assert (- n <= - x / 2 ^ 1074); [|lia].
  apply Z.div_le_lower_bound; lia.
Qed.

Lemma ceiling_pos x : 0 < x -> 0 < ceiling x.
Proof.
  intros Hx. pose proof (ceiling_above x) as H.
  destruct (Z_lt_le_dec 0 (ceiling x)) as [|Hle]; [done|].
  apply of_Z_le in Hle. rewrite of_Z_0 in Hle. lia.
Qed.

(** A value that fits in 53 significant bits is not rounded. *)
Lemma round_to_double_exact v :
  (2 ^ (Z.log2 (Z.abs v) - 52) | v) -> round_to_double v = v.
Proof.
  intros Hdiv. unfold round_to_double.
  destruct (Z.leb_spec (Z.log2 (Z.abs v) - 52) 0) as [|Hs]; [done|].
  set (shift := Z.log2 (Z.abs v) - 52) in *.
  assert (0 < 2 ^ shift) as Hp by (apply Z.pow_pos_nonneg; lia).
  assert (0 < 2 ^ (shift - 1)) as Hh by (apply Z.pow_pos_nonneg; lia).
  assert (Z.abs v mod 2 ^ shift = 0) as Hr.
  { apply Z.mod_divide; [lia|]. by apply Z.divide_abs_r. }
  rewrite Hr. destruct (Z.ltb_spec 0 (2 ^ (shift - 1))) as [_|]; [|lia].
  cbv zeta. pose proof (Z.div_mod (Z.abs v) (2 ^ shift) ltac:(lia)) as Hdm.
  rewrite Hr in Hdm.
  replace (Z.abs v / 2 ^ shift * 2 ^ shift) with (Z.abs v) by lia.
  rewrite Z.mul_comm. apply Z.abs_sgn.
Qed.

(** Whole numbers below 2^53 are subtracted exactly. *)
Lemma number_sub_of_Z a b :
  Z.abs (a - b) < 2 ^ 53 -> number_sub (of_Z a) (of_Z b) = of_Z (a - b).
Proof.
  intros Hab. unfold number_sub, of_Z. rewrite <- Z.mul_sub_distr_r.
  apply round_to_double_exact.
  destruct (decide (a - b = 0)) as [->|Hne]; [apply Z.divide_0_r|].
  assert (Z.log2 (Z.abs ((a - b) * 2 ^ 1074)) = Z.log2 (Z.abs (a - b)) + 1074) as ->.
  { rewrite Z.abs_mul, (Z.abs_eq (2 ^ 1074)) by (apply Z.pow_nonneg; lia).
    rewrite <- Z.shiftl_mul_pow2 by lia. apply Z.log2_shiftl; lia. }
  assert (Z.log2 (Z.abs (a - b)) < 53) as Hl by (apply Z.log2_lt_pow2; lia).
  pose proof (Z.log2_nonneg (Z.abs (a - b))).
  apply Z.divide_mul_r.
  exists (2 ^ (1074 - (Z.log2 (Z.abs (a - b)) + 1074 - 52))).
  rewrite <- Z.pow_add_r by lia. f_equal. lia.
Qed.

Lemma round_to_double_nonpos v : v <= 0 -> round_to_double v <= 0.
Proof.
  intros Hv. unfold round_to_double.
  destruct (Z.leb_spec (Z.log2 (Z.abs v) - 52) 0) as [|Hs]; [done|].
  set (shift := Z.log2 (Z.abs v) - 52) in *. cbv zeta.
  assert (0 < 2 ^ shift) as Hp by (apply Z.pow_pos_nonneg; lia).
  assert (0 <= Z.abs v / 2 ^ shift) as Hq by (apply Z.div_pos; lia).
  set (q := Z.abs v / 2 ^ shift) in *.
  assert (0 <= (if Z.abs v mod 2 ^ shift <? 2 ^ (shift - 1) then q
                else if 2 ^ (shift - 1) <? Z.abs v mod 2 ^ shift then q + 1
                else if Z.even q then q else q + 1)) as Hq'.
  { destruct (_ <? _); [lia|]. destruct (_ <? _); [lia|]. destruct (Z.even q); lia. }
  destruct (Z.sgn_spec v) as [[Hv0 ->]|[[Hv0 ->]|[Hv0 ->]]]; [lia|lia|nia].
Qed.

(** Rounding does not cross a whole number below 2^53. *)
Lemma round_to_double_below v n :
  0 <= n < 2 ^ 53 -> v <= of_Z n -> round_to_double v <= of_Z n.
Proof.
  intros Hn Hv.
  assert (0 < 2 ^ 1074) as Hone by (apply Z.pow_pos_nonneg; lia).
  assert (0 <= of_Z n) as Hn0 by (unfold of_Z; nia).
  destruct (Z_le_gt_dec v 0) as [Hv0|Hv0].
  { pose proof (round_to_double_nonpos v Hv0). lia. }
  unfold round_to_double. rewrite Z.sgn_pos, Z.abs_eq by lia.
  destruct (Z.leb_spec (Z.log2 v - 52) 0) as [|Hs]; [done|].
  set (shift := Z.log2 v - 52) in *. cbv zeta.
  assert (0 < 2 ^ shift) as Hp by (apply Z.pow_pos_nonneg; lia).
  assert (0 < 2 ^ (shift - 1)) as Hh by (apply Z.pow_pos_nonneg; lia).
  pose proof (Z.mod_pos_bound v (2 ^ shift) Hp) as Hr.
  pose proof (Z.div_mod v (2 ^ shift) ltac:(lia)) as Hdm.
  set (q := v / 2 ^ shift) in *. set (r := v mod 2 ^ shift) in *.
  assert (shift <= 1074) as Hshift.
  { assert (Z.log2 v < 1127); [|unfold shift; lia].
    apply Z.log2_lt_pow2; [lia|].
    assert (of_Z n < 2 ^ 1127); [|lia].
    unfold of_Z. change (2 ^ 1127) with (2 ^ 53 * 2 ^ 1074). nia. }
  assert (of_Z n = (n * 2 ^ (1074 - shift)) * 2 ^ shift) as Hm.
  { unfold of_Z. rewrite <- Z.mul_assoc, <- Z.pow_add_r by lia.
    do 2 f_equal. lia. }
  set (m := n * 2 ^ (1074 - shift)) in *.
  assert (q <= m) as Hqm by nia.
  assert ((if r <? 2 ^ (shift - 1) then q
           else if 2 ^ (shift - 1) <? r then q + 1
           else if Z.even q then q else q + 1) <= m) as Hq'.
  { destruct (decide (q = m)) as [E|].
    - assert (r = 0) as -> by nia.
      destruct (Z.ltb_spec 0 (2 ^ (shift - 1))); lia.
    - destruct (_ <? _); [lia|]. destruct (_ <? _); [lia|]. destruct (Z.even q); lia. }
  rewrite Hm. nia.
Qed.

(** Up to 2^53 searches, a subtraction of one leaves at most the whole
    searches there were, less one. *)
Lemma number_sub_one_below x :
  0 < x -> x <= of_Z (2 ^ 53) ->
  number_sub x (of_Z 1) <= of_Z (ceiling x - 1).
Proof.
  intros Hpos Hmax.
  pose proof (ceiling_above x) as Hx. pose proof (ceiling_pos x Hpos) as Hc.
  pose proof (ceiling_least x _ Hmax) as Hcm.
  apply round_to_double_below; [lia|].
  unfold of_Z in *. lia.
Qed.

Lemma countdown_of_Z (k : nat) n :
  Z.abs n < 2 ^ 53 -> Z.abs (n - Z.of_nat k) < 2 ^ 53 ->
  countdown k (of_Z n) = of_Z (n - Z.of_nat k).
Proof.
  induction k as [|k IH]; intros Hn Hk.
  - simpl. f_equal. lia.
  - unfold countdown in *. rewrite Nat.iter_succ, IH by lia.
    rewrite number_sub_of_Z by lia. f_equal. lia.
Qed.

End Numbers.

(** An equation between a run that is given and its result. *)
Ltac evaluate :=
  lazymatch goal with
  | |- ?l = _ =>
      let v := eval vm_compute in l in
      transitivity v; [vm_cast_no_check (eq_refl v)|reflexivity]
  end.

(** Comparisons of numbers that are given. *)
Ltac number_decide :=
  vm_compute; first [reflexivity | discriminate | (let H := fresh in intros H; discriminate H)].

(** * The freshness classifier *)

Section Freshness.
Import Js JsFacts.

Variable rt : Runtime.

Lemma nonempty_middle pre w post : w <> "" -> is_empty (pre +:+ w +:+ post) = false.
Proof. intros H. destruct pre; [|done]. rewrite app_nil_l. by destruct w. Qed.

(** A piece whose lower-case form starts and ends with a code unit that is
    not white space survives [toLowerCase] and [trim]. *)
Lemma normalized_around pre w post c m d :
  toLowerCase w = String c m ->
  is_space c = false -> last_of None (String c m) = Some d -> is_space d = false ->
  trim (toLowerCase (pre +:+ w +:+ post)) =
  trimStart (toLowerCase pre) +:+ String c m +:+ trimEnd (toLowerCase post).
Proof.
  intros Hw Hc Hl Hd. rewrite !toLowerCase_app, Hw. by eapply trim_around.
Qed.

Lemma just_text_found t pre w post c m d :
  toLowerCase w = t -> t = String c m ->
  is_space c = false -> last_of None (String c m) = Some d -> is_space d = false ->
  includes t (trim (toLowerCase (pre +:+ w +:+ post))) = true.
Proof.
  intros Hw -> Hc Hl Hd.
  rewrite (normalized_around _ _ _ _ _ _ Hw Hc Hl Hd). apply includes_app.
Qed.

Lemma relative_word_found p pre w post c m d :
  toLowerCase w = p -> p = String c m ->
  is_space c = false -> last_of None (String c m) = Some d -> is_space d = false ->
  replace_dot_comma p = p ->
  is_word (head p) = true -> is_word (last_of None p) = true ->
  is_word (last_of None pre) = false -> is_word (head post) = false ->
  test_bounded p (sanitized (pre +:+ w +:+ post)) = true.
Proof.
  intros Hw -> Hc Hl Hd Hp Hh Hlw Hpre Hpost. unfold sanitized.
  rewrite (normalized_around _ _ _ _ _ _ Hw Hc Hl Hd).
  rewrite !replace_dot_comma_app, Hp.
  apply test_bounded_from_app; try done.
  - rewrite is_word_last_sanitized, is_word_last_trimStart.
    by rewrite (is_word_last_lower None).
  - by rewrite is_word_head_sanitized, is_word_head_trimEnd, is_word_head_lower.
Qed.

Lemma isPostedToday_word s p :
  In p relativePatterns -> has_word p s -> isPostedToday rt (Str s) = true.
Proof.
  intros Hin (pre & w & post & -> & Hw & Hpre & Hpost).
  assert (w <> "") as Hne.
  { intros ->. simpl in Hw. subst p. simpl in Hin. intuition discriminate. }
  unfold isPostedToday. simpl falsy. rewrite nonempty_middle by done. simpl or_empty.
  destruct (includes "just posted" _ || includes "just now" _); [done|].
  fold (sanitized (pre +:+ w +:+ post)).
  assert (existsb (fun pattern => test_bounded pattern (sanitized (pre +:+ w +:+ post)))
            relativePatterns = true) as ->; [|done].
  apply existsb_exists. exists p. split; [done|].
  simpl in Hin.
  repeat (destruct Hin as [<-|Hin];
          [by eapply relative_word_found; [exact Hw|reflexivity|..]|]).
  done.
Qed.

Lemma isPostedToday_text s :
  has_text "just posted" s \/ has_text "just now" s -> isPostedToday rt (Str s) = true.
Proof.
  intros H.
  assert (exists pre w post, s = pre +:+ w +:+ post /\ w <> "" /\
            (includes "just posted" (trim (toLowerCase s)) ||
             includes "just now" (trim (toLowerCase s))) = true)
    as (pre & w & post & -> & Hne & E).
  { destruct H as [(pre & w & post & -> & Hw)|(pre & w & post & -> & Hw)];
      exists pre, w, post; (split; [done|]); (split; [by intros ->|]).
    - apply orb_true_iff. left.
      eapply just_text_found; [exact Hw|reflexivity..].
    - apply orb_true_iff. right.
      eapply just_text_found; [exact Hw|reflexivity..]. }
  unfold isPostedToday. simpl falsy. rewrite nonempty_middle by done.
  simpl or_empty. by rewrite E.
Qed.




Lemma same_day_eq a b : same_day a b = true <-> a = b.
Proof.
  unfold same_day. destruct a, b; simpl. rewrite !andb_true_iff, !Z.eqb_eq.
  split; [intros [[-> ->] ->]; done | intros [= -> -> ->]; done].
Qed.


End Freshness.




(** * The deduplicator *)

Section Dedupe.
Import Js JsFacts.

Local Abbreviation keys l := (dedupe_key <$> l).

Lemma removeDuplicates_loop_output seen o1 o2 jobs :
  removeDuplicates_loop seen (o1 ++ o2) jobs = o1 ++ removeDuplicates_loop seen o2 jobs.
Proof.
  revert seen o2. induction jobs as [|job rest IH]; intros seen o2; simpl; [done|].
  case_decide; [apply IH|]. rewrite <- (assoc_L (++)). apply IH.
Qed.

(** The loop can be cut anywhere: the set [seen] has then grown by the
    keys met so far. *)
Lemma removeDuplicates_loop_app seen output pre rest :
  removeDuplicates_loop seen output (pre ++ rest) =
  removeDuplicates_loop (seen ∪ list_to_set (keys pre))
    (removeDuplicates_loop seen output pre) rest.
Proof.
  revert seen output. induction pre as [|job pre IH]; intros seen output; simpl.
  - by rewrite (right_id_L ∅ (∪)).
  - case_decide as Hin; rewrite IH; f_equal.
    + rewrite (assoc_L (∪) seen {[dedupe_key job]}).
      rewrite (comm_L (∪) seen {[dedupe_key job]}).
      rewrite (subseteq_union_1_L {[dedupe_key job]} seen); [done|].
      by apply singleton_subseteq_l.
    + rewrite (assoc_L (∪) seen {[dedupe_key job]}).
      by rewrite (comm_L (∪) seen {[dedupe_key job]}).
Qed.

(** A posting is kept exactly when no earlier posting has its key. *)
Lemma removeDuplicates_snoc pre job :
  removeDuplicates (pre ++ [job]) =
  removeDuplicates pre ++
    (if decide (dedupe_key job ∈ keys pre) then [] else [job]).
Proof.
  unfold removeDuplicates. rewrite removeDuplicates_loop_app. simpl.
  rewrite (left_id_L ∅ (∪)).
  destruct (decide (dedupe_key job ∈ keys pre)) as [Hin|Hin].
  - rewrite decide_True by (by apply elem_of_list_to_set).
    by rewrite (right_id_L [] (++)).
  - rewrite decide_False by (by rewrite elem_of_list_to_set). done.
Qed.

Lemma removeDuplicates_keys x k : k ∈ keys (removeDuplicates x) <-> k ∈ keys x.
Proof.
  induction x as [|job pre IH] using rev_ind; [done|].
  rewrite removeDuplicates_snoc, !fmap_app, !elem_of_app, IH.
  case_decide as Hin; simpl; [|done].
  rewrite elem_of_nil, list_elem_of_singleton.
  split; [tauto|]. intros [?|E]; [tauto|]. subst k. tauto.
Qed.

Lemma removeDuplicates_idempotent x :
  removeDuplicates (removeDuplicates x) = removeDuplicates x.
Proof.
  induction x as [|job pre IH] using rev_ind; [done|].
  rewrite removeDuplicates_snoc. case_decide as Hin.
  - by rewrite (right_id_L [] (++)).
  - rewrite removeDuplicates_snoc, IH.
    rewrite decide_False; [done|]. by rewrite removeDuplicates_keys.
Qed.

Lemma removeDuplicates_sublist x : sublist (removeDuplicates x) x.
Proof.
  induction x as [|job pre IH] using rev_ind; [done|].
  rewrite removeDuplicates_snoc. apply sublist_app; [done|].
  case_decide; [apply sublist_nil_l|done].
Qed.

Lemma removeDuplicates_NoDup x : NoDup (keys (removeDuplicates x)).
Proof.
  induction x as [|job pre IH] using rev_ind; [constructor|].
  rewrite removeDuplicates_snoc, fmap_app. apply NoDup_app. split; [done|].
  case_decide as Hin; simpl.
  - split; [intros ? _ []%elem_of_nil|constructor].
  - split; [|apply NoDup_singleton].
    intros k Hk ->%list_elem_of_singleton. by apply Hin, removeDuplicates_keys.
Qed.

(** *** Normalisation *)

Lemma trimStart_spaces l : all_chars is_space l = true -> trimStart l = "".
Proof. induction l as [|c l IH]; [done|]. simpl. intros [-> ?]%andb_prop. auto. Qed.

Lemma trimEnd_spaces r : all_chars is_space r = true -> trimEnd r = "".
Proof.
  induction r as [|c r IH]; [done|]. simpl. intros [-> ?]%andb_prop. by rewrite IH.
Qed.

Lemma trimStart_pad l s : all_chars is_space l = true -> trimStart (l +:+ s) = trimStart s.
Proof.
  induction l as [|c l IH]; [done|]. rewrite app_cons. simpl.
  intros [-> ?]%andb_prop. auto.
Qed.

Lemma trimEnd_pad s r : all_chars is_space r = true -> trimEnd (s +:+ r) = trimEnd s.
Proof.
  intros Hr. induction s as [|c s IH].
  - by rewrite app_nil_l, trimEnd_spaces.
  - rewrite app_cons. simpl. by rewrite IH.
Qed.

Lemma trim_pad l a r :
  all_chars is_space l = true -> all_chars is_space r = true ->
  trim (l +:+ a +:+ r) = trim a.
Proof.
  intros Hl Hr. unfold trim. rewrite trimStart_pad by done.
  induction a as [|c a IH].
  - by rewrite app_nil_l, trimStart_spaces.
  - rewrite app_cons. simpl. destruct (is_space c); [exact IH|].
    rewrite <- app_cons. by apply trimEnd_pad.
Qed.

Lemma toLowerCase_trimStart s : toLowerCase (trimStart s) = trimStart (toLowerCase s).
Proof.
  induction s as [|c s IH]; [done|]. simpl. rewrite is_space_lower.
  by destruct (is_space c).
Qed.

Lemma toLowerCase_trimEnd s : toLowerCase (trimEnd s) = trimEnd (toLowerCase s).
Proof.
  induction s as [|c s IH]; [done|]. simpl. rewrite <- IH, is_space_lower.
  destruct (trimEnd s); [by destruct (is_space c)|done].
Qed.

Lemma toLowerCase_trim s : toLowerCase (trim s) = trim (toLowerCase s).
Proof. unfold trim. by rewrite toLowerCase_trimEnd, toLowerCase_trimStart. Qed.

Lemma normalizeText_alike a b :
  alike (or_empty a) (or_empty b) -> normalizeText a = normalizeText b.
Proof.
  intros (l1 & r1 & l2 & r2 & a' & b' & Ha & Hb & ? & ? & ? & ? & E).
  unfold normalizeText. rewrite Ha, Hb, !trim_pad by done.
  by rewrite !toLowerCase_trim, E.
Qed.

(** *** The key *)

Lemma pipe_split a b a' b' :
  all_chars (fun c => negb (bool_decide (c = "|"%char))) a = true ->
  all_chars (fun c => negb (bool_decide (c = "|"%char))) a' = true ->
  a +:+ "|" +:+ b = a' +:+ "|" +:+ b' -> a = a' /\ b = b'.
Proof.
  revert a'. induction a as [|c a IH]; intros [|c' a'] Ha Ha' E; simpl in Ha, Ha';
    rewrite ?app_nil_l, ?app_cons, ?app_nil_l in E.
  - by injection E as ->.
  - injection E as <- _. apply andb_prop in Ha' as [Hc _].
    by apply negb_true_iff, bool_decide_eq_false in Hc.
  - injection E as -> _. apply andb_prop in Ha as [Hc _].
    by apply negb_true_iff, bool_decide_eq_false in Hc.
  - injection E as -> E. apply andb_prop in Ha as [_ Ha], Ha' as [_ Ha'].
    destruct (IH _ Ha Ha' E) as [-> ->]. done.
Qed.

Lemma removeDuplicates_pair p q :
  removeDuplicates [p; q] = if decide (dedupe_key q = dedupe_key p) then [p] else [p; q].
Proof.
  change [p; q] with ([p] ++ [q]). rewrite removeDuplicates_snoc.
  assert (removeDuplicates [p] = [p]) as ->.
  { unfold removeDuplicates. simpl. by rewrite decide_False by apply not_elem_of_empty. }
  simpl. destruct (decide (dedupe_key q = dedupe_key p)) as [E|E].
  - rewrite decide_True; [done|]. rewrite E. apply list_elem_of_singleton. done.
  - rewrite decide_False; [done|]. by intros ?%list_elem_of_singleton.
Qed.

(** Where no normalised title holds the separator, equal keys mean equal
    normalised titles and equal normalised company names. *)
Lemma dedupe_key_injective_without_pipe p q :
  all_chars (fun c => negb (bool_decide (c = "|"%char))) (normalizeText (title p)) = true ->
  all_chars (fun c => negb (bool_decide (c = "|"%char))) (normalizeText (title q)) = true ->
  (dedupe_key p = dedupe_key q <->
   normalizeText (title p) = normalizeText (title q) /\
   normalizeText (company_name p) = normalizeText (company_name q)).
Proof.
  intros Hp Hq. unfold dedupe_key. split.
  - by apply pipe_split.
  - by intros [-> ->].
Qed.

End Dedupe.

(** C7.  [removeDuplicates] is idempotent; its result is a subsequence of its
    argument in which no key occurs twice, and a posting is kept exactly
    when no earlier posting of the argument has its key (the first
    occurrence stays, in place); two postings whose titles and whose
    company names differ only by letter case and by white space at the ends
    collapse to the first. *)
Theorem removeDuplicates_stable :
  (forall x, removeDuplicates (removeDuplicates x) = removeDuplicates x) /\
  (forall x, sublist (removeDuplicates x) x /\
             NoDup (dedupe_key <$> removeDuplicates x)) /\
  (forall pre job,
     removeDuplicates (pre ++ [job]) =
     removeDuplicates pre ++
       (if decide (dedupe_key job ∈ dedupe_key <$> pre) then [] else [job])) /\
  (forall p q,
     alike (or_empty (title p)) (or_empty (title q)) ->
     alike (or_empty (company_name p)) (or_empty (company_name q)) ->
     removeDuplicates [p; q] = [p]).
Proof.
  split; [|split; [|split]].
  - apply removeDuplicates_idempotent.
  - intros x. split; [apply removeDuplicates_sublist|apply removeDuplicates_NoDup].
  - apply removeDuplicates_snoc.
  - intros p q Ht Hc. rewrite removeDuplicates_pair, decide_True; [done|].
    unfold dedupe_key.
    by rewrite (normalizeText_alike _ _ Ht), (normalizeText_alike _ _ Hc).
Qed.

Lemma removeDuplicates_stable_witness :
  let p := {| title := Str "  Staff Engineer"; company_name := Str "ACME ";
              location := Str "Toronto"; posted_at := Str "today";
              apply_link := Undefined |} in
  let q := {| title := Str "staff engineer "; company_name := Str "Acme";
              location := Str "Remote"; posted_at := Str "3 hours ago";
              apply_link := Str "https://example.com/apply" |} in
  removeDuplicates [p; q] = [p].
Proof.
  intros p q.
  apply (proj2 (proj2 (proj2 removeDuplicates_stable)) p q).
  - exists "  ", "", "", " ", "Staff Engineer", "staff engineer".
    repeat split; reflexivity.
  - exists "", " ", "", "", "ACME", "Acme".
    repeat split; reflexivity.
Defined.

(** C8 (the code departs from it).  The key is the two normalised texts
    joined by a pipe, and nothing keeps a pipe out of them: two postings
    whose normalised titles differ and whose normalised company names
    differ have the same key, and the second is dropped as a duplicate. *)
Theorem removeDuplicates_pipe_collision :
  let p := {| title := Str "Engineer|Remote"; company_name := Str "Acme";
              location := Str "Toronto"; posted_at := Str "today";
              apply_link := Undefined |} in
  let q := {| title := Str "Engineer"; company_name := Str "Remote|Acme";
              location := Str "Toronto"; posted_at := Str "today";
              apply_link := Undefined |} in
  normalizeText (title p) <> normalizeText (title q) /\
  normalizeText (company_name p) <> normalizeText (company_name q) /\
  dedupe_key p = dedupe_key q /\
  removeDuplicates [p; q] = [p].
Proof.
  intros p q. split; [discriminate|]. split; [discriminate|]. split; [reflexivity|].
  by rewrite removeDuplicates_pair, decide_True.
Qed.

(** * The orchestrator *)

Ltac run :=
  unfold mbind, M_bind, bind, mret, M_ret, ret, throw, try_catch, do_fetch, emit in *.

Section Orchestrator.
Import Js JsFacts.

Variables (rt : Runtime) (w : World).

(** ** Notices *)

Lemma notifySerpFailure_total resend sender recipient details tr :
  exists tr', notifySerpFailure w resend sender recipient details tr = (tr', Ok tt).
Proof.
  unfold notifySerpFailure.
  destruct (bool_decide _ || _ || _); [by eexists|].
  run. unfold send. destruct (deliver w tr _); by eexists.
Qed.

Lemma notifySerpFailure_notified resend sender recipient details tr :
  resend <> None -> sender <> "" -> recipient <> "" ->
  exists tr', notifySerpFailure w resend sender recipient details tr = (tr', Ok tt) /\
              notified tr (notice sender recipient details) tr'.
Proof.
  intros Hr Hs Ht. unfold notifySerpFailure.
  rewrite bool_decide_eq_false_2 by done.
  destruct sender; [done|]. destruct recipient; [done|]. cbn [orb is_empty].
  run. unfold send, notified, notice.
  destruct (deliver w tr _).
  - eexists. split; [done|]. right. eexists. by rewrite <- (assoc_L (++)).
  - eexists. split; [done|]. by left.
Qed.

(** ** One search *)

Section Search.
Variables (serpKey : string) (resend : option Resend) (sender recipient : string).
Variables (role : string) (tr : trace).

Let url := search_url role serpKey.
Let search := fetchRoleResults rt w role serpKey resend sender recipient.

Lemma ok_not_429 r : ok r = true -> (status r =? 429) = false.
Proof. unfold ok. intros [?%Z.leb_le ?%Z.leb_le]%andb_prop. apply Z.eqb_neq. lia. Qed.

Lemma search_rejected msg :
  fetch w tr url = Rejected msg ->
  exists tr', search tr = (tr', Throw (Error msg)) /\
    (resend <> None -> sender <> "" -> recipient <> "" ->
     notified (tr ++ [EFetch url])
       (notice sender recipient
          ("SerpAPI request error for " +:+ dq +:+ role +:+ dq +:+ ": " +:+ msg)) tr').
Proof.
  intros Hf. unfold search, fetchRoleResults. run. fold url. rewrite Hf.
  destruct (notifySerpFailure_total resend sender recipient
    ("SerpAPI request error for " +:+ dq +:+ role +:+ dq +:+ ": " +:+ msg)
    (tr ++ [EFetch url])) as [tr' E].
  exists tr'. rewrite E. split; [done|]. intros Hr Hs Ht.
  destruct (notifySerpFailure_notified resend sender recipient
    ("SerpAPI request error for " +:+ dq +:+ role +:+ dq +:+ ": " +:+ msg)
    (tr ++ [EFetch url]) Hr Hs Ht) as (tr'' & E' & Hn). congruence.
Qed.

Lemma search_429 r :
  fetch w tr url = Responded r -> status r = 429 ->
  search tr =
  (tr ++ [EFetch url],
   Throw (createQuotaExceededError
            ("SerpAPI free tier limit reached while fetching " +:+
             dq +:+ role +:+ dq +:+ "."))).
Proof.
  intros Hf Hs. unfold search, fetchRoleResults. run. fold url.
  by rewrite Hf, Hs.
Qed.

Lemma search_bad_status r :
  fetch w tr url = Responded r -> status r <> 429 -> ok r = false ->
  exists tr',
    search tr =
      (tr', Throw (Error ("SerpAPI request failed with status " +:+ pretty (status r)))) /\
    (resend <> None -> sender <> "" -> recipient <> "" ->
     notified (tr ++ [EFetch url])
       (notice sender recipient
          ("SerpAPI responded with status " +:+ pretty (status r) +:+ " for " +:+
           dq +:+ role +:+ dq +:+ ": " +:+ statusText r +:+ nl +:+ body_text r)) tr').
Proof.
  intros Hf Hs Hok. unfold search, fetchRoleResults. run. fold url. rewrite Hf.
  apply Z.eqb_neq in Hs. rewrite Hs, Hok. cbn [negb].
  match goal with |- context [notifySerpFailure w resend sender recipient ?d ?t] =>
    destruct (notifySerpFailure_total resend sender recipient d t) as [tr' E];
    exists tr'; rewrite E; split; [done|]; intros Hr Hse Ht;
    destruct (notifySerpFailure_notified resend sender recipient d t Hr Hse Ht)
      as (tr'' & E' & Hn)
  end.
  congruence.
Qed.

Lemma search_quota_payload r p :
  fetch w tr url = Responded r -> ok r = true -> body_json r = Json p ->
  isQuotaErrorMessage (error_field p) = true ->
  search tr =
  (tr ++ [EFetch url], Throw (createQuotaExceededError (errorDetails_of role p))).
Proof.
  intros Hf Hok Hj Hq. unfold search, fetchRoleResults. run. fold url.
  rewrite Hf, (ok_not_429 _ Hok), Hok, Hj. cbn [negb].
  unfold isQuotaErrorMessage in Hq.
  destruct (falsy (error_field p)) eqn:Hfal; [done|]. cbn [negb].
  unfold isQuotaErrorMessage. by rewrite Hfal, Hq.
Qed.

Lemma search_error_payload r p :
  fetch w tr url = Responded r -> ok r = true -> body_json r = Json p ->
  falsy (error_field p) = false -> isQuotaErrorMessage (error_field p) = false ->
  exists tr',
    search tr = (tr', Throw (Error (errorDetails_of role p))) /\
    (resend <> None -> sender <> "" -> recipient <> "" ->
     notified (tr ++ [EFetch url]) (notice sender recipient (errorDetails_of role p)) tr').
Proof.
  intros Hf Hok Hj Hfal Hq. unfold search, fetchRoleResults. run. fold url.
  rewrite Hf, (ok_not_429 _ Hok), Hok, Hj, Hfal, Hq. cbn [negb].
  fold (errorDetails_of role p).
  destruct (notifySerpFailure_total resend sender recipient (errorDetails_of role p)
              (tr ++ [EFetch url])) as [tr' E].
  exists tr'. rewrite E. split; [done|]. intros Hr Hse Ht.
  destruct (notifySerpFailure_notified resend sender recipient (errorDetails_of role p)
              (tr ++ [EFetch url]) Hr Hse Ht) as (tr'' & E' & Hn).
  congruence.
Qed.

Lemma search_jobs r p :
  fetch w tr url = Responded r -> ok r = true -> body_json r = Json p ->
  falsy (error_field p) = true ->
  search tr =
  (tr ++ [EFetch url],
   Ok match jobs_results p with
      | JobsArray jobs =>
          removeDuplicates
            (filter (fun job => isPostedToday rt (posted_at job) = true) jobs)
      | _ => []
      end).
Proof.
  intros Hf Hok Hj Hfal. unfold search, fetchRoleResults. run. fold url.
  rewrite Hf, (ok_not_429 _ Hok), Hok, Hj, Hfal. cbn [negb].
  by destruct (jobs_results p).
Qed.

(** A search that returns, and a search that ends on a quota error,
    have touched nothing but the network. *)
Lemma search_quiet_trace tr' res :
  search tr = (tr', res) ->
  match res with
  | Ok _ => True
  | Throw e => isQuotaExceededError e = true
  end ->
  tr' = tr ++ [EFetch url].
Proof.
  unfold search, fetchRoleResults. run. fold url.
  destruct (fetch w tr url) as [msg|r].
  { destruct (notifySerpFailure_total resend sender recipient
      ("SerpAPI request error for " +:+ dq +:+ role +:+ dq +:+ ": " +:+ msg)
      (tr ++ [EFetch url])) as [t E]. rewrite E. by intros [= <- <-]. }
  destruct (status r =? 429); [by intros [= <- <-]|].
  destruct (negb (ok r)).
  { match goal with |- context [notifySerpFailure w resend sender recipient ?d ?t] =>
      destruct (notifySerpFailure_total resend sender recipient d t) as [t' E] end.
    rewrite E. by intros [= <- <-]. }
  destruct (body_json r) as [msg|p]; [by intros [= <- <-]|].
  destruct (negb (falsy (error_field p))).
  - destruct (isQuotaErrorMessage (error_field p)); [by intros [= <- <-]|].
    match goal with |- context [notifySerpFailure w resend sender recipient ?d ?t] =>
      destruct (notifySerpFailure_total resend sender recipient d t) as [t' E] end.
    rewrite E. by intros [= <- <-].
  - by destruct (jobs_results p); intros [= <- <-].
Qed.

End Search.

(** ** The loop *)

Section Loop.
Variables (serpKey : string) (resend : option Resend) (sender recipient : string).
Variable total : number.

Let search role := fetchRoleResults rt w role serpKey resend sender recipient.
Let body := loop_body rt w serpKey resend sender recipient total.
Let loop := for_roles rt w serpKey resend sender recipient total.

Lemma loop_body_skip st role tr :
  remainingSearches st <= 0 -> body st role tr = (tr, Ok (skip_role rt total st role)).
Proof.
  intros H%Z.leb_le. unfold body, loop_body. by rewrite H.
Qed.

Lemma loop_body_search st role tr tr' res :
  0 < remainingSearches st -> search role tr = (tr', res) ->
  body st role tr =
  (tr', match res with
        | Ok jobs => Ok (record_jobs st role jobs)
        | Throw e =>
            if isQuotaExceededError e then Ok (record_quota st role e) else Throw e
        end).
Proof.
  intros H%Z.leb_gt Hs. unfold body, loop_body. rewrite H. run.
  fold (search role). rewrite Hs. destruct res as [jobs|e]; [done|].
  by destruct (isQuotaExceededError e).
Qed.

Lemma for_roles_app st a b tr :
  loop st (a ++ b) tr =
  match loop st a tr with
  | (tr', Ok st') => loop st' b tr'
  | (tr', Throw e) => (tr', Throw e)
  end.
Proof.
  revert st tr. induction a as [|role a IH]; intros st tr; [done|].
  simpl. run. fold body.
  destruct (body st role tr) as [tr1 [st1|e]]; [apply IH|done].
Qed.

Lemma for_roles_cons st role rest tr :
  loop st (role :: rest) tr =
  match body st role tr with
  | (tr', Ok st') => loop st' rest tr'
  | (tr', Throw e) => (tr', Throw e)
  end.
Proof. reflexivity. Qed.

(** One turn that does not abort adds one section, written for the role
    of the turn, and hands no mail to the provider. *)
Lemma loop_body_ok st role tr tr' st' :
  body st role tr = (tr', Ok st') ->
  exists s evs,
    sections st' = sections st ++ [s] /\ is_section_of role s /\
    tr' = tr ++ evs /\ sent evs = [].
Proof.
  destruct (Z_le_gt_dec (remainingSearches st) 0) as [Hle|Hgt].
  - rewrite loop_body_skip by done. intros [= <- <-].
    eexists _, []. split; [reflexivity|]. split; [constructor|].
    by rewrite (right_id_L [] (++)).
  - destruct (search role tr) as [tr1 res] eqn:Hs.
    rewrite (loop_body_search st role tr tr1 res ltac:(lia) Hs).
    assert (forall st1, (match res with
              | Ok jobs => Ok (record_jobs st role jobs)
              | Throw e =>
                  if isQuotaExceededError e then Ok (record_quota st role e) else Throw e
              end) = Ok st1 ->
            match res with Ok _ => True | Throw e => isQuotaExceededError e = true end /\
            exists s, sections st1 = sections st ++ [s] /\ is_section_of role s) as Hres.
    { intros st1. destruct res as [jobs|e].
      - intros [= <-]. split; [done|]. eexists. split; [reflexivity|constructor].
      - destruct (isQuotaExceededError e); [|done]. intros [= <-]. split; [done|].
        eexists. split; [reflexivity|constructor]. }
    intros [= <- Hst]. destruct (Hres _ Hst) as (Hq & s & Hsec & Hs').
    exists s, [EFetch (search_url role serpKey)]. repeat split; try done.
    by eapply search_quiet_trace.
Qed.

Lemma for_roles_ok st roles tr tr' st' :
  loop st roles tr = (tr', Ok st') ->
  exists new evs,
    sections st' = sections st ++ new /\ Forall2 is_section_of roles new /\
    tr' = tr ++ evs /\ sent evs = [].
Proof.
  revert st tr. induction roles as [|role rest IH]; intros st tr.
  - intros [= <- <-]. exists [], []. by rewrite !(right_id_L [] (++)).
  - rewrite for_roles_cons.
    destruct (body st role tr) as [tr1 [st1|e]] eqn:Hb; [|done].
    intros (new & evs & Hsec & Hall & -> & Hsent)%IH.
    apply loop_body_ok in Hb as (s & evs1 & Hsec1 & Hs & -> & Hsent1).
    exists (s :: new), (evs1 ++ evs). rewrite Hsec, Hsec1.
    rewrite <- !(assoc_L (++)). repeat split; try done.
    + by constructor.
    + unfold sent in *. by rewrite omap_app, Hsent, Hsent1.
Qed.

(** Once the quota notice has been given and no search is left, every
    further role is skipped without a search. *)
Lemma for_roles_skip_all st roles tr :
  remainingSearches st <= 0 -> quotaTriggered st = true -> quotaMessageSent st = true ->
  loop st roles tr = (tr, Ok (skipped_all st roles)).
Proof.
  revert st. induction roles as [|role rest IH]; intros st Hr Hq Hm.
  - unfold skipped_all. simpl. rewrite (right_id_L [] (++)). by destruct st.
  - rewrite for_roles_cons, loop_body_skip by done.
    rewrite IH by done. unfold skipped_all, skip_role. simpl.
    by rewrite Hm, Hq, <- (assoc_L (++)).
Qed.

(** The two flags are both down at the end exactly when they were down
    at the start and the run was without event. *)
Lemma for_roles_flags st roles tr tr' st' :
  loop st roles tr = (tr', Ok st') ->
  (quotaTriggered st' = false /\ hasAnyPosting st' = false <->
   quotaTriggered st = false /\ hasAnyPosting st = false /\
   quiet rt w serpKey resend sender recipient st roles tr).
Proof.
  revert st tr. induction roles as [|role rest IH]; intros st tr.
  - intros [= <- <-]. simpl. tauto.
  - rewrite for_roles_cons.
    destruct (Z_le_gt_dec (remainingSearches st) 0) as [Hle|Hgt].
    + rewrite loop_body_skip by done. intros Hl. rewrite (IH _ _ Hl). simpl.
      split; [intros [? _]; discriminate|intros (_ & _ & ? & _); lia].
    + destruct (search role tr) as [tr1 res] eqn:Hs.
      rewrite (loop_body_search st role tr tr1 res ltac:(lia) Hs).
      destruct res as [jobs|e].
      * intros Hl. rewrite (IH _ _ Hl). simpl. fold (search role). rewrite Hs.
        destruct jobs as [|job jobs]; simpl.
        -- split; [intros (? & ? & ?); eauto 10 with lia|].
           intros (? & ? & _ & t & [= <-] & ?). done.
        -- split; [intros (_ & ? & _); discriminate|].
           intros (_ & _ & _ & t & [=] & _).
      * destruct (isQuotaExceededError e); [|done].
        intros Hl. rewrite (IH _ _ Hl). simpl. fold (search role). rewrite Hs.
        split; [intros [? _]; discriminate|intros (_ & _ & _ & t & [=] & _)].
Qed.

End Loop.

(** ** After the loop *)

Lemma finish_silent sender recipient st tr :
  quotaTriggered st = false -> hasAnyPosting st = false ->
  finish w sender recipient st tr = (tr ++ [ELog "No postings today"], Ok tt).
Proof. intros Hq Hp. unfold finish. by rewrite Hq, Hp. Qed.

Lemma finish_report sender recipient st tr :
  ~ (quotaTriggered st = false /\ hasAnyPosting st = false) ->
  finish w sender recipient st tr =
  match deliver w tr (report sender recipient (sections st)) with
  | None => (tr ++ [ESend (report sender recipient (sections st)); ELog "Email sent"], Ok tt)
  | Some e => (tr ++ [ESend (report sender recipient (sections st))], Throw e)
  end.
Proof.
  intros H. unfold finish.
  assert (negb (quotaTriggered st) && negb (hasAnyPosting st) = false) as ->.
  { destruct (quotaTriggered st), (hasAnyPosting st); try done. by destruct H. }
  run. unfold send. destruct (deliver w tr _); [done|].
  by rewrite <- (assoc_L (++)).
Qed.

Lemma fetchJobs_configured env serpKey resendKey sender recipient roles :
  configured env serpKey resendKey sender recipient roles ->
  fetchJobs rt w env =
  (totalSearchesLeft ←
     fetchRemainingSearches rt w serpKey (Some {| api_key := resendKey |}) sender recipient;
   st ← for_roles rt w serpKey (Some {| api_key := resendKey |}) sender recipient
          totalSearchesLeft (initial_state totalSearchesLeft) roles;
   finish w sender recipient st).
Proof.
  intros [E1 E2 E3 E4 H1 H2 H3 H4 Hr Hne]. unfold fetchJobs.
  rewrite E1, E2, E3, E4, Hr. simpl default. unfold unset at 1 2 3 4.
  destruct serpKey; [done|]. destruct resendKey; [done|].
  destruct sender; [done|]. destruct recipient; [done|]. cbn [orb is_empty].
  assert (unset (ROLE_QUERY env) = false) as ->.
  { destruct (ROLE_QUERY env) as [[|]|] eqn:E; simpl in *; congruence. }
  rewrite decide_False; [done|]. by destruct roles.
Qed.

(** A section starts with the line naming its role. *)
Lemma section_starts_with_role role s : is_section_of role s -> starts_with_role role s.
Proof.
  intros [jobs|triggered details]; unfold starts_with_role.
  - unfold formatRoleSection. case_decide; eexists; unfold join; simpl;
      by rewrite app_assoc.
  - unfold formatQuotaSection. destruct triggered; eexists; unfold join; simpl;
      by rewrite app_assoc.
Qed.

End Orchestrator.

(** C1.  When the loop runs to its end, the report holds one section for
    each role query, in the order of the queries: the section at each
    position is one written for the role at that position, and starts with
    the line naming it. *)
Theorem sections_follow_roles
    (rt : Runtime) (w : World) (serpKey : string) (resend : option Resend)
    (sender recipient : string) (total : number) (roles : list string)
    (tr tr' : trace) (st : LoopState) :
  for_roles rt w serpKey resend sender recipient total (initial_state total) roles tr
    = (tr', Ok st) ->
  length (sections st) = length roles /\
  Forall2 is_section_of roles (sections st) /\
  Forall2 starts_with_role roles (sections st).
Proof.
  intros (new & evs & Hsec & Hall & _)%for_roles_ok. simpl in Hsec. subst new.
  split; [by apply Forall2_length in Hall|]. split; [done|].
  eapply Forall2_impl; [exact Hall|]. apply section_starts_with_role.
Qed.

Lemma sections_follow_roles_witness :
  exists tr st,
    for_roles Reference.runtime
      (Example.scripted (Example.credits 2)
         [("A", Example.listing [Example.posting "Staff Engineer" "Acme" "today"]);
          ("B", Example.too_many_requests)])
      Example.serpKey Example.resend Example.sender Example.recipient (of_Z 2)
      (initial_state (of_Z 2)) ["A"; "B"; "C"] [] = (tr, Ok st) /\
    length (sections st) = 3%nat /\
    Forall2 starts_with_role ["A"; "B"; "C"] (sections st).
Proof.
  destruct (for_roles _ _ _ _ _ _ _ _ _ _) as [tr [st|e]] eqn:E;
    [|vm_compute in E; discriminate].
  exists tr, st. split; [reflexivity|].
  destruct (sections_follow_roles _ _ _ _ _ _ _ _ _ _ _ E) as (Hl & _ & Hs).
  split; [exact Hl|exact Hs].
Defined.

(** C10.  A successful response without an error text whose [jobs_results]
    is absent or is not an array is handled as a search that found nothing:
    [fetchRoleResults] returns the empty list, and the turn of the loop is
    the one of a search with no posting, with the section "No new postings
    published today." and one search less: the count less one as the
    machine subtracts, which for a whole number up to 2^53 is that number
    less one. *)
Theorem missing_jobs_results_counts_as_empty
    (rt : Runtime) (w : World) (serpKey : string) (resend : option Resend)
    (sender recipient : string) (total : number) (st : LoopState) (role : string)
    (tr : trace) (r : Response) (p : Payload) :
  0 < remainingSearches st ->
  fetch w tr (search_url role serpKey) = Responded r ->
  ok r = true -> body_json r = Json p -> falsy (error_field p) = true ->
  (forall jobs, jobs_results p <> JobsArray jobs) ->
  fetchRoleResults rt w role serpKey resend sender recipient tr
    = (tr ++ [EFetch (search_url role serpKey)], Ok []) /\
  exists st',
    loop_body rt w serpKey resend sender recipient total st role tr
      = (tr ++ [EFetch (search_url role serpKey)], Ok st') /\
    st' = record_jobs st role [] /\
    sections st' = sections st ++ ["Role: " +:+ role +:+ nl +:+ NO_POSTINGS_LINE] /\
    remainingSearches st' = number_sub (remainingSearches st) (of_Z 1) /\
    (forall k, remainingSearches st = of_Z k -> k <= 2 ^ 53 ->
       remainingSearches st' = of_Z (k - 1)) /\
    hasAnyPosting st' = hasAnyPosting st /\
    quotaTriggered st' = quotaTriggered st /\
    quotaMessageSent st' = quotaMessageSent st.
Proof.
  intros Hrem Hf Hok Hj Herr Hjobs.
  assert (fetchRoleResults rt w role serpKey resend sender recipient tr
          = (tr ++ [EFetch (search_url role serpKey)], Ok [])) as Hs.
  { rewrite (search_jobs rt w serpKey resend sender recipient role tr r p) by done.
    destruct (jobs_results p) as [|v|jobs]; try done. by destruct (Hjobs jobs). }
  split; [exact Hs|]. eexists. split.
  - by rewrite (loop_body_search rt w serpKey resend sender recipient total st role tr _ _ Hrem Hs).
  - repeat split. intros k Hk Hmax. simpl. rewrite Hk in *.
    rewrite <- of_Z_0 in Hrem. apply -> of_Z_lt in Hrem. apply number_sub_of_Z. lia.
Qed.

Lemma missing_jobs_results_counts_as_empty_witness :
  let w := Example.scripted (Example.credits 2)
             [("A", Example.respond 200 "OK" Example.nothing)] in
  exists st',
    loop_body Reference.runtime w Example.serpKey Example.resend Example.sender
      Example.recipient (of_Z 2) (initial_state (of_Z 2)) "A" []
      = ([EFetch (search_url "A" Example.serpKey)], Ok st') /\
    sections st' = ["Role: A" +:+ nl +:+ NO_POSTINGS_LINE] /\
    remainingSearches st' = of_Z 1.
Proof.
  intros w.
  destruct (missing_jobs_results_counts_as_empty Reference.runtime w Example.serpKey
              Example.resend Example.sender Example.recipient (of_Z 2) (initial_state (of_Z 2)) "A" []
              {| status := 200; statusText := "OK"; body_text := "{}";
                 body_json := Json Example.nothing |} Example.nothing)
    as (_ & st' & Hb & _ & Hsec & Hrem & _); try reflexivity; [discriminate|].
  exists st'. split; [exact Hb|]. split; [exact Hsec|exact Hrem].
Defined.

(** * The account lookup *)

Section Account.

Variables (rt : Runtime) (w : World).
Variables (serpKey : string) (resend : option Resend) (sender recipient : string).
Variable tr : trace.

Let url := "https://serpapi.com/account?api_key=" +:+ serpKey.
Let lookup := fetchRemainingSearches rt w serpKey resend sender recipient.

Lemma remaining_of_chosen p : remaining_of rt p = Number rt (chosen p).
Proof.
  unfold remaining_of, chosen, coalesce.
  by destruct (total_searches_left p), (plan_searches_left p).
Qed.

Lemma lookup_rejected msg :
  fetch w tr url = Rejected msg ->
  exists tr', lookup tr = (tr', Throw (Error msg)) /\
    (resend <> None -> sender <> "" -> recipient <> "" ->
     notified (tr ++ [EFetch url])
       (notice sender recipient ("SerpAPI account lookup error: " +:+ msg)) tr').
Proof.
  intros Hf. unfold lookup, fetchRemainingSearches. run. fold url. rewrite Hf.
  match goal with |- context [notifySerpFailure w resend sender recipient ?d ?t] =>
    destruct (notifySerpFailure_total w resend sender recipient d t) as [tr' E];
    exists tr'; rewrite E; split; [done|]; intros Hr Hse Ht;
    destruct (notifySerpFailure_notified w resend sender recipient d t Hr Hse Ht)
      as (tr'' & E' & Hn)
  end.
  congruence.
Qed.

Lemma lookup_bad_status r :
  fetch w tr url = Responded r -> ok r = false ->
  exists tr',
    lookup tr =
      (tr', Throw (Error ("SerpAPI account lookup failed with status " +:+
                          pretty (status r)))) /\
    (resend <> None -> sender <> "" -> recipient <> "" ->
     notified (tr ++ [EFetch url])
       (notice sender recipient
          ("SerpAPI account endpoint responded with status " +:+ pretty (status r)
           +:+ ": " +:+ statusText r +:+ nl +:+ body_text r)) tr').
Proof.
  intros Hf Hok. unfold lookup, fetchRemainingSearches. run. fold url.
  rewrite Hf, Hok. cbn [negb].
  match goal with |- context [notifySerpFailure w resend sender recipient ?d ?t] =>
    destruct (notifySerpFailure_total w resend sender recipient d t) as [tr' E];
    exists tr'; rewrite E; split; [done|]; intros Hr Hse Ht;
    destruct (notifySerpFailure_notified w resend sender recipient d t Hr Hse Ht)
      as (tr'' & E' & Hn)
  end.
  congruence.
Qed.

Lemma lookup_json r p :
  fetch w tr url = Responded r -> ok r = true -> body_json r = Json p ->
  match Number rt (chosen p) with
  | Fin n => lookup tr = (tr ++ [EFetch url], Ok n)
  | _ =>
      exists tr',
        lookup tr =
          (tr', Throw (Error
             "Unable to determine remaining SerpAPI searches from account response.")) /\
        (resend <> None -> sender <> "" -> recipient <> "" ->
         notified (tr ++ [EFetch url])
           (notice sender recipient
              "Unable to determine remaining SerpAPI searches from account response.") tr')
  end.
Proof.
  intros Hf Hok Hj. unfold lookup, fetchRemainingSearches. run. fold url.
  rewrite Hf, Hok, Hj, remaining_of_chosen. cbn [negb].
  destruct (Number rt (chosen p)); [done|..];
    match goal with |- context [notifySerpFailure w resend sender recipient ?d ?t] =>
      destruct (notifySerpFailure_total w resend sender recipient d t) as [tr' E];
      exists tr'; rewrite E; (split; [done|]); intros Hr Hse Ht;
      destruct (notifySerpFailure_notified w resend sender recipient d t Hr Hse Ht)
        as (tr'' & E' & Hn)
    end; congruence.
Qed.

Lemma lookup_ok_trace tr' n : lookup tr = (tr', Ok n) -> tr' = tr ++ [EFetch url].
Proof.
  unfold lookup, fetchRemainingSearches. run. fold url.
  destruct (fetch w tr url) as [msg|r].
  { match goal with |- context [notifySerpFailure w resend sender recipient ?d ?t] =>
      destruct (notifySerpFailure_total w resend sender recipient d t) as [t' E] end.
    by rewrite E. }
  destruct (negb (ok r)).
  { match goal with |- context [notifySerpFailure w resend sender recipient ?d ?t] =>
      destruct (notifySerpFailure_total w resend sender recipient d t) as [t' E] end.
    by rewrite E. }
  destruct (body_json r) as [msg|p]; [done|].
  destruct (remaining_of rt p); [by intros [= <- _]|..];
    match goal with |- context [notifySerpFailure w resend sender recipient ?d ?t] =>
      destruct (notifySerpFailure_total w resend sender recipient d t) as [t' E] end;
    by rewrite E.
Qed.

End Account.

(** C9 (as amended).  The count is read from the field that decides (the
    first of the three that is neither absent nor null, [searches_left]
    when the first two are absent or null) and from no other.  The lookup
    fails, after a best-effort notice, when the request fails, when the
    status is not a success, and, for a body that is JSON, exactly when the
    deciding field does not convert to a finite number; otherwise it returns
    that number and has only queried the account endpoint. *)
Theorem fetchRemainingSearches_decided_by_chosen
    (rt : Runtime) (w : World) (serpKey : string) (resend : option Resend)
    (sender recipient : string) (tr : trace) :
  resend <> None -> sender <> "" -> recipient <> "" ->
  let url := "https://serpapi.com/account?api_key=" +:+ serpKey in
  let lookup := fetchRemainingSearches rt w serpKey resend sender recipient in
  let fails :=
    exists tr' e details,
      lookup tr = (tr', Throw e) /\
      notified (tr ++ [EFetch url]) (notice sender recipient details) tr' in
  (forall msg, fetch w tr url = Rejected msg -> fails) /\
  (forall r, fetch w tr url = Responded r -> ok r = false -> fails) /\
  (forall r p, fetch w tr url = Responded r -> ok r = true -> body_json r = Json p ->
     (forall n, Number rt (chosen p) = Fin n -> lookup tr = (tr ++ [EFetch url], Ok n)) /\
     ((forall n, Number rt (chosen p) <> Fin n) -> fails)).
Proof.
  intros Hr Hs Ht url lookup fails. split; [|split].
  - intros msg Hf.
    destruct (lookup_rejected rt w serpKey resend sender recipient tr msg Hf)
      as (tr' & E & Hn).
    exists tr'. eexists _, _. split; [exact E|by apply Hn].
  - intros r Hf Hok.
    destruct (lookup_bad_status rt w serpKey resend sender recipient tr r Hf Hok)
      as (tr' & E & Hn).
    exists tr'. eexists _, _. split; [exact E|by apply Hn].
  - intros r p Hf Hok Hj.
    pose proof (lookup_json rt w serpKey resend sender recipient tr r p Hf Hok Hj) as H.
    split.
    + intros n Hn. by rewrite Hn in H.
    + intros Hnot. destruct (Number rt (chosen p)) as [n| |b];
        [by destruct (Hnot n)|..];
        destruct H as (tr' & E & Hn); exists tr'; eexists _, _;
        (split; [exact E|by apply Hn]).
Qed.

Lemma fetchRemainingSearches_decided_by_chosen_witness :
  fetchRemainingSearches Reference.runtime
    (Example.scripted
       (Example.respond 200 "OK"
          {| total_searches_left := VNull; plan_searches_left := VStr " 7 ";
             searches_left := VNum (Fin (of_Z 3)); error_field := Undefined;
             error_code := Undefined; jobs_results := JobsAbsent |}) [])
    Example.serpKey Example.resend Example.sender Example.recipient []
  = ([EFetch ("https://serpapi.com/account?api_key=" +:+ Example.serpKey)], Ok (of_Z 7)).
Proof.
  eapply (fetchRemainingSearches_decided_by_chosen Reference.runtime _ Example.serpKey
            Example.resend Example.sender Example.recipient []);
    try reflexivity; discriminate.
Defined.

(** C9, as first stated, fails: a later field with a finite number does not
    help when an earlier field is present and is not a number; the lookup
    fails although one of the fields yields a finite number. *)
Lemma fetchRemainingSearches_later_field_ignored :
  let p := {| total_searches_left := VStr "n/a"; plan_searches_left := VNum (Fin (of_Z 5));
              searches_left := VUndefined; error_field := Undefined;
              error_code := Undefined; jobs_results := JobsAbsent |} in
  Number Reference.runtime (plan_searches_left p) = Fin (of_Z 5) /\
  exists tr e,
    fetchRemainingSearches Reference.runtime
      (Example.scripted (Example.respond 200 "OK" p) [])
      Example.serpKey Example.resend Example.sender Example.recipient [] = (tr, Throw e).
Proof. intros p. split; [reflexivity|]. eexists _, _. evaluate. Qed.

(** C2 (as amended).  Roles A, B, C with two searches left.  When the
    searches for A and B return, each adds its section and takes one search,
    and C, the first role met without a search left, gets the notice that
    the two searches were used by earlier roles, in the form of the section
    of a role that triggered the quota.  When instead the search for B is
    answered 429, B gets the section of the role that triggered the quota
    and C the plain section of a skipped role.  Either way there are three
    sections, for A, B and C in that order. *)
Theorem three_roles_two_credits
    (rt : Runtime) (w : World) (serpKey : string) (resend : option Resend)
    (sender recipient : string) (tr tr1 : trace) (ja : list JobPosting) :
  let search role := fetchRoleResults rt w role serpKey resend sender recipient in
  let loop := for_roles rt w serpKey resend sender recipient (of_Z 2) (initial_state (of_Z 2)) in
  search "A" tr = (tr1, Ok ja) ->
  (forall jb tr2, search "B" tr1 = (tr2, Ok jb) ->
     exists sa sb st,
       loop ["A"] tr = (tr1, Ok sa) /\ remainingSearches sa = of_Z 1 /\
       loop ["A"; "B"] tr = (tr2, Ok sb) /\ remainingSearches sb = 0 /\
       loop ["A"; "B"; "C"] tr = (tr2, Ok st) /\
       sections st =
         [ formatRoleSection "A" ja;
           formatRoleSection "B" jb;
           "Role: C" +:+ nl +:+
           "SerpAPI only had 2 searches available and they were used by earlier roles in this run."
           +:+ nl +:+ TRIGGER_LAST_LINE ]) /\
  (forall r, fetch w tr1 (search_url "B" serpKey) = Responded r -> status r = 429 ->
     exists st,
       loop ["A"; "B"; "C"] tr = (tr1 ++ [EFetch (search_url "B" serpKey)], Ok st) /\
       sections st =
         [ formatRoleSection "A" ja;
           "Role: B" +:+ nl +:+
           "SerpAPI free tier limit reached while fetching " +:+ dq +:+ "B" +:+ dq +:+ "."
           +:+ nl +:+ TRIGGER_LAST_LINE;
           "Role: C" +:+ nl +:+ SKIPPED_LINE ]).
Proof.
  intros search loop Ha.
  assert (loop_body rt w serpKey resend sender recipient (of_Z 2) (initial_state (of_Z 2)) "A" tr
          = (tr1, Ok (record_jobs (initial_state (of_Z 2)) "A" ja))) as HbA.
  { by rewrite (loop_body_search rt w serpKey resend sender recipient (of_Z 2)
                  (initial_state (of_Z 2)) "A" tr tr1 (Ok ja)). }
  split.
  - intros jb tr2 Hb.
    assert (loop_body rt w serpKey resend sender recipient (of_Z 2)
              (record_jobs (initial_state (of_Z 2)) "A" ja) "B" tr1
            = (tr2, Ok (record_jobs (record_jobs (initial_state (of_Z 2)) "A" ja) "B" jb))) as HbB.
    { by rewrite (loop_body_search rt w serpKey resend sender recipient (of_Z 2)
                    _ "B" tr1 tr2 (Ok jb)). }
    eexists _, _, _. unfold loop.
    rewrite !for_roles_cons, HbA. cbv beta iota.
    rewrite !for_roles_cons, HbB. cbv beta iota.
    rewrite !for_roles_cons, loop_body_skip by number_decide.
    repeat split.
  - intros r Hf H429.
    pose proof (search_429 rt w serpKey resend sender recipient "B" tr1 r Hf H429) as Hb.
    assert (loop_body rt w serpKey resend sender recipient (of_Z 2)
              (record_jobs (initial_state (of_Z 2)) "A" ja) "B" tr1
            = (tr1 ++ [EFetch (search_url "B" serpKey)],
               Ok (record_quota (record_jobs (initial_state (of_Z 2)) "A" ja) "B"
                     (createQuotaExceededError
                        ("SerpAPI free tier limit reached while fetching " +:+
                         dq +:+ "B" +:+ dq +:+ "."))))) as HbB.
    { by rewrite (loop_body_search rt w serpKey resend sender recipient (of_Z 2)
                    (record_jobs (initial_state (of_Z 2)) "A" ja) "B" tr1 _ _
                    ltac:(number_decide) Hb). }
    eexists. unfold loop.
    rewrite for_roles_cons, HbA. cbv beta iota.
    rewrite for_roles_cons, HbB. cbv beta iota.
    rewrite for_roles_cons, loop_body_skip by number_decide.
    repeat split.
Qed.

Lemma three_roles_two_credits_witness :
  let w := Example.scripted (Example.credits 2)
             [("A", Example.listing [Example.posting "Staff Engineer" "Acme" "today"]);
              ("B", Example.too_many_requests)] in
  exists tr st,
    for_roles Reference.runtime w Example.serpKey Example.resend Example.sender
      Example.recipient (of_Z 2) (initial_state (of_Z 2)) ["A"; "B"; "C"] [] = (tr, Ok st) /\
    sections st !! 2%nat = Some ("Role: C" +:+ nl +:+ SKIPPED_LINE).
Proof.
  intros w.
  destruct (three_roles_two_credits Reference.runtime w Example.serpKey Example.resend
              Example.sender Example.recipient [] _ _ eq_refl) as [_ H].
  destruct (H _ eq_refl eq_refl) as (st & Hl & Hs).
  eexists _, st. split; [exact Hl|]. by rewrite Hs.
Defined.

(** C2, as first stated, fails: with two searches granted and both used,
    the section of the third role is not the plain section of a skipped
    role; it carries the notice. *)
Lemma third_role_gets_the_notice :
  let w := Example.scripted (Example.credits 2)
             [("A", Example.listing []); ("B", Example.listing [])] in
  exists tr st,
    for_roles Reference.runtime w Example.serpKey Example.resend Example.sender
      Example.recipient (of_Z 2) (initial_state (of_Z 2)) ["A"; "B"; "C"] [] = (tr, Ok st) /\
    sections st !! 2%nat =
      Some ("Role: C" +:+ nl +:+
            "SerpAPI only had 2 searches available and they were used by earlier roles in this run."
            +:+ nl +:+ "Remaining roles were skipped to avoid extra API calls.") /\
    sections st !! 2%nat <> Some (formatQuotaSection "C" false None).
Proof.
  intros w. eexists _, _. split; [evaluate|]. split; [reflexivity|discriminate].
Qed.

(** * The run as a whole *)

Section Run.
Import Js JsFacts.

Variables (rt : Runtime) (w : World).
Variables (serpKey : string) (resend : option Resend) (sender recipient : string).

Let search role := fetchRoleResults rt w role serpKey resend sender recipient.

Lemma has_text_nonempty t s : t <> "" -> has_text t s -> s <> "".
Proof.
  intros Ht (pre & t' & post & -> & Hl) E. destruct pre; [|done].
  rewrite app_nil_l in E. destruct t'; [|done]. simpl in Hl. congruence.
Qed.

Lemma isQuotaErrorMessage_has_text msg :
  isQuotaErrorMessage (Str msg) = true <->
  has_text "quota" msg \/ has_text "limit" msg \/ has_text "exceeded" msg.
Proof.
  unfold isQuotaErrorMessage. simpl falsy. simpl or_empty.
  destruct msg as [|c msg].
  - simpl. split; [done|].
    intros [H|[H|H]]; by apply has_text_nonempty in H.
  - cbn [is_empty]. by rewrite !orb_true_iff, !includes_lower_has_text, (assoc (∨)).
Qed.

Lemma search_quota role tr r :
  fetch w tr (search_url role serpKey) = Responded r -> quota_response r ->
  exists e,
    search role tr = (tr ++ [EFetch (search_url role serpKey)], Throw e) /\
    isQuotaExceededError e = true.
Proof.
  intros Hf [H429|(Hok & p & msg & Hj & He & Ht)].
  - eexists. split;
      [exact (search_429 rt w serpKey resend sender recipient role tr r Hf H429)
      |reflexivity].
  - assert (isQuotaErrorMessage (error_field p) = true) as Hmsg.
    { rewrite He. by apply isQuotaErrorMessage_has_text. }
    eexists. split;
      [exact (search_quota_payload rt w serpKey resend sender recipient role tr r p
                Hf Hok Hj Hmsg)
      |reflexivity].
Qed.

Lemma search_fatal role tr :
  resend <> None -> sender <> "" -> recipient <> "" ->
  fatal_outcome (fetch w tr (search_url role serpKey)) ->
  exists e details tr',
    search role tr = (tr', Throw e) /\ isQuotaExceededError e = false /\
    notified (tr ++ [EFetch (search_url role serpKey)])
      (notice sender recipient details) tr'.
Proof.
  intros Hr Hs Ht Hfatal.
  destruct (fetch w tr (search_url role serpKey)) as [msg|r] eqn:Hf.
  - destruct (search_rejected rt w serpKey resend sender recipient role tr msg Hf)
      as (tr' & E & Hn).
    eexists _, _, tr'. split; [exact E|]. split; [done|by apply Hn].
  - destruct Hfatal as [[H429 Hok]|(Hok & p & msg & Hj & He & Hne & H1 & H2 & H3)].
    + destruct (search_bad_status rt w serpKey resend sender recipient role tr r
                  Hf H429 Hok) as (tr' & E & Hn).
      eexists _, _, tr'. split; [exact E|]. split; [done|by apply Hn].
    + destruct (search_error_payload rt w serpKey resend sender recipient role tr r p
                  Hf Hok Hj) as (tr' & E & Hn).
      * rewrite He. by destruct msg.
      * rewrite He. apply not_true_is_false.
        intros [?|[?|?]]%isQuotaErrorMessage_has_text; tauto.
      * eexists _, _, tr'. split; [exact E|]. split; [done|by apply Hn].
Qed.

Lemma sent_app a b : sent (a ++ b) = sent a ++ sent b.
Proof. apply omap_app. Qed.

(** The quota error of a search, with its message. *)
Lemma search_quota_details role tr r :
  fetch w tr (search_url role serpKey) = Responded r -> quota_response r ->
  search role tr =
    (tr ++ [EFetch (search_url role serpKey)],
     Throw (createQuotaExceededError (quota_details role r))).
Proof.
  intros Hf [H429|(Hok & p & msg & Hj & He & Ht)]; unfold quota_details.
  - rewrite H429. simpl.
    exact (search_429 rt w serpKey resend sender recipient role tr r Hf H429).
  - rewrite (ok_not_429 _ Hok), Hj.
    apply (search_quota_payload rt w serpKey resend sender recipient role tr r p Hf Hok Hj).
    rewrite He. by apply isQuotaErrorMessage_has_text.
Qed.

(** The section of the role whose search was answered by that error. *)
Lemma quota_section role r :
  quota_response r ->
  formatQuotaSection role true (Some (quota_details role r)) =
  "Role: " +:+ role +:+ nl +:+ quota_details role r +:+ nl +:+ TRIGGER_LAST_LINE.
Proof.
  intros Hq. unfold formatQuotaSection.
  assert (is_empty (quota_details role r) = false) as ->.
  { unfold quota_details. destruct Hq as [->|(Hok & p & msg & -> & _)]; [done|].
    by rewrite (ok_not_429 _ Hok). }
  unfold join. simpl. by rewrite !app_assoc.
Qed.

Lemma search_unreadable role tr r msg :
  fetch w tr (search_url role serpKey) = Responded r ->
  ok r = true -> body_json r = BadJson msg ->
  search role tr = (tr ++ [EFetch (search_url role serpKey)], Throw (Error msg)).
Proof.
  intros Hf Hok Hj. unfold search, fetchRoleResults. run.
  by rewrite Hf, (ok_not_429 _ Hok), Hok, Hj.
Qed.

(** The errors of a search that are no quota errors: the three kinds that
    are notified, and the body that is not JSON. *)
Lemma search_throw_kinds role tr tr' e :
  search role tr = (tr', Throw e) -> isQuotaExceededError e = false ->
  fatal_outcome (fetch w tr (search_url role serpKey)) \/
  unreadable (fetch w tr (search_url role serpKey)).
Proof.
  unfold search, fetchRoleResults. run.
  destruct (fetch w tr (search_url role serpKey)) as [msg|r]; [by left|].
  destruct (status r =? 429) eqn:H429; [by intros [= _ <-]|].
  apply Z.eqb_neq in H429.
  destruct (negb (ok r)) eqn:Hok.
  { intros _ _. left. left. by apply negb_true_iff in Hok. }
  apply negb_false_iff in Hok.
  destruct (body_json r) as [msg|p] eqn:Hj.
  { intros _ _. right. split; [done|]. by exists msg. }
  destruct (negb (falsy (error_field p))) eqn:Hfal.
  - destruct (isQuotaErrorMessage (error_field p)) eqn:Hq; [by intros [= _ <-]|].
    intros _ _. left. right. split; [done|].
    destruct (error_field p) as [| |msg] eqn:He; [done..|].
    exists p, msg. split; [done|]. split; [done|]. split; [by destruct msg|].
    assert (~ (has_text "quota" msg \/ has_text "limit" msg \/ has_text "exceeded" msg))
      as Hno by (rewrite <- isQuotaErrorMessage_has_text; congruence).
    tauto.
  - by destruct (jobs_results p).
Qed.

End Run.

(** C3 (as amended).  A search answered by an exhausted quota (status 429,
    or a response with a success status whose error text contains "quota",
    "limit" or "exceeded" in any letter case) does not abort the run: the
    search throws the quota error, the role gets the section of the role
    that triggered the quota, with the message of the error, no search is
    left, every later role gets the section of a skipped role and no
    further search is issued, and the run goes on to hand the report to the
    mail provider. *)
Theorem quota_exceeded_is_absorbed
    (rt : Runtime) (w : World) (env : Env) (serpKey resendKey sender recipient : string)
    (pre : list string) (role : string) (post : list string)
    (tr0 tr1 tr : trace) (n : number) (st : LoopState) (r : Response) :
  let resend := Some {| api_key := resendKey |} in
  let url := search_url role serpKey in
  let e := createQuotaExceededError (quota_details role r) in
  configured env serpKey resendKey sender recipient (pre ++ role :: post) ->
  fetchRemainingSearches rt w serpKey resend sender recipient tr0 = (tr1, Ok n) ->
  for_roles rt w serpKey resend sender recipient n (initial_state n) pre tr1 = (tr, Ok st) ->
  0 < remainingSearches st ->
  fetch w tr url = Responded r -> quota_response r ->
  exists st',
    fetchRoleResults rt w role serpKey resend sender recipient tr
      = (tr ++ [EFetch url], Throw e) /\
    loop_body rt w serpKey resend sender recipient n st role tr
      = (tr ++ [EFetch url], Ok (record_quota st role e)) /\
    for_roles rt w serpKey resend sender recipient n (initial_state n)
      (pre ++ role :: post) tr1 = (tr ++ [EFetch url], Ok st') /\
    remainingSearches st' = 0 /\
    quotaTriggered st' = true /\
    sections st' =
      sections st ++
      ("Role: " +:+ role +:+ nl +:+ quota_details role r +:+ nl +:+ TRIGGER_LAST_LINE) ::
      map (fun later => "Role: " +:+ later +:+ nl +:+ SKIPPED_LINE) post /\
    fetchJobs rt w env tr0 =
      match deliver w (tr ++ [EFetch url]) (report sender recipient (sections st')) with
      | None =>
          (tr ++ [EFetch url; ESend (report sender recipient (sections st'));
                  ELog "Email sent"], Ok tt)
      | Some err =>
          (tr ++ [EFetch url; ESend (report sender recipient (sections st'))], Throw err)
      end.
Proof.
  intros resend url e Hcfg Hlook Hpre Hrem Hf Hq.
  pose proof (search_quota_details rt w serpKey resend sender recipient role tr r Hf Hq)
    as Hs. fold url e in Hs.
  pose proof (loop_body_search rt w serpKey resend sender recipient n st role tr _ _
                Hrem Hs) as Hbody.
  cbv beta iota in Hbody.
  change (isQuotaExceededError e) with true in Hbody. cbv iota in Hbody.
  assert (for_roles rt w serpKey resend sender recipient n (initial_state n)
            (pre ++ role :: post) tr1
          = (tr ++ [EFetch url], Ok (skipped_all (record_quota st role e) post))) as Hloop.
  { rewrite for_roles_app, Hpre, for_roles_cons, Hbody.
    by apply for_roles_skip_all. }
  exists (skipped_all (record_quota st role e) post).
  split; [done|]. split; [done|]. split; [done|]. split; [done|]. split; [done|].
  split.
  - simpl. rewrite <- (assoc_L (++)). f_equal. simpl. f_equal.
    exact (quota_section role r Hq).
  - rewrite (fetchJobs_configured rt w env _ _ _ _ _ Hcfg). run.
    fold resend. rewrite Hlook, Hloop, finish_report by (simpl; intros [? _]; done).
    destruct (deliver w _ _); by rewrite <- (assoc_L (++)).
Qed.

Lemma quota_exceeded_is_absorbed_witness :
  let w := Example.scripted (Example.credits 5)
             [("A", Example.listing [Example.posting "Staff Engineer" "Acme" "today"]);
              ("B", Example.respond 200 "OK"
                      {| total_searches_left := VUndefined; plan_searches_left := VUndefined;
                         searches_left := VUndefined;
                         error_field := Str "Your account has run out of searches: monthly LIMIT reached.";
                         error_code := Undefined; jobs_results := JobsAbsent |})] in
  exists tr, fetchJobs Reference.runtime w Example.env [] = (tr, Ok tt) /\
             length (sent tr) = 1%nat.
Proof.
  intros w.
  edestruct (quota_exceeded_is_absorbed Reference.runtime w Example.env Example.serpKey
               "re_1" Example.sender Example.recipient ["A"] "B" ["C"] [])
    as (st' & _ & _ & Hloop & _ & _ & _ & Hrun).
  - by split.
  - evaluate.
  - evaluate.
  - number_decide.
  - evaluate.
  - right. split; [reflexivity|]. eexists _, _. split; [reflexivity|].
    split; [reflexivity|]. right. left.
    by exists "Your account has run out of searches: monthly ", "LIMIT", " reached.".
  - simpl in Hrun. eexists. split; [exact Hrun|reflexivity].
Defined.

(** C3, as first stated, fails: an error payload that speaks of the quota
    is read only when the status is a success.  With status 403 the payload
    is not looked at: the search ends on an error that is no quota error,
    the run is aborted after a failure notice, no report is handed over and
    the process exits with status 1. *)
Lemma quota_text_with_failed_status_aborts :
  let p := {| total_searches_left := VUndefined; plan_searches_left := VUndefined;
              searches_left := VUndefined;
              error_field := Str "Your account has exceeded its quota.";
              error_code := Undefined; jobs_results := JobsAbsent |} in
  let w := Example.scripted (Example.credits 5)
             [("A", Example.respond 403 "Forbidden" p)] in
  isQuotaErrorMessage (error_field p) = true /\
  exists tr e,
    fetchJobs Reference.runtime w Example.env [] = (tr, Throw e) /\
    isQuotaExceededError e = false /\
    fetched tr = ["https://serpapi.com/account?api_key=k"; search_url "A" Example.serpKey] /\
    sent tr =
      [notice Example.sender Example.recipient
         ("SerpAPI responded with status 403 for " +:+ dq +:+ "A" +:+ dq +:+
          ": Forbidden" +:+ nl +:+ "{}")] /\
    (main Reference.runtime w Example.env).2 = 1.
Proof.
  intros p w. split; [reflexivity|]. eexists _, _.
  split; [evaluate|]. split; [reflexivity|].
  split; [reflexivity|]. split; [reflexivity|]. evaluate.
Qed.

(** C4.  A search that ends on an error which is no quota error aborts the
    run: the error leaves the loop and [fetchJobs], whatever roles come
    after, and the process exits with status 1.  Such an error has one of
    four causes.  For three of them (the request fails, the status is
    neither a success nor 429, a successful response carries an error text
    without "quota", "limit" or "exceeded") a failure notice is attempted
    first and is the only mail of the run.  For the fourth, a successful
    response whose body is not JSON, nothing is attempted: the run ends
    right after the request and has handed over no mail at all. *)
Theorem fatal_search_error_aborts
    (rt : Runtime) (w : World) (env : Env) (serpKey resendKey sender recipient : string)
    (pre : list string) (role : string) (post : list string)
    (tr0 tr1 tr tr' : trace) (n : number) (st : LoopState) (e : error) :
  let resend := Some {| api_key := resendKey |} in
  let url := search_url role serpKey in
  configured env serpKey resendKey sender recipient (pre ++ role :: post) ->
  fetchRemainingSearches rt w serpKey resend sender recipient tr0 = (tr1, Ok n) ->
  for_roles rt w serpKey resend sender recipient n (initial_state n) pre tr1 = (tr, Ok st) ->
  0 < remainingSearches st ->
  fetchRoleResults rt w role serpKey resend sender recipient tr = (tr', Throw e) ->
  isQuotaExceededError e = false ->
  (forall later,
     for_roles rt w serpKey resend sender recipient n (initial_state n)
       (pre ++ role :: later) tr1 = (tr', Throw e)) /\
  fetchJobs rt w env tr0 = (tr', Throw e) /\
  (tr0 = [] -> (main rt w env).2 = 1) /\
  (fatal_outcome (fetch w tr url) \/ unreadable (fetch w tr url)) /\
  (fatal_outcome (fetch w tr url) ->
   exists details evs,
     notified (tr ++ [EFetch url]) (notice sender recipient details) tr' /\
     tr' = tr0 ++ evs /\ sent evs = [notice sender recipient details]) /\
  (unreadable (fetch w tr url) ->
   exists evs,
     tr' = tr ++ [EFetch url] /\ tr' = tr0 ++ evs /\ sent evs = []).
Proof.
  intros resend url Hcfg Hlook Hpre Hrem Hs He.
  pose proof (loop_body_search rt w serpKey resend sender recipient n st role tr _ _
                Hrem Hs) as Hbody.
  cbv beta iota in Hbody. rewrite He in Hbody.
  assert (forall later,
            for_roles rt w serpKey resend sender recipient n (initial_state n)
              (pre ++ role :: later) tr1 = (tr', Throw e)) as Hloop.
  { intros later. by rewrite for_roles_app, Hpre, for_roles_cons, Hbody. }
  assert (fetchJobs rt w env tr0 = (tr', Throw e)) as Hrun.
  { rewrite (fetchJobs_configured rt w env _ _ _ _ _ Hcfg). run.
    fold resend. by rewrite Hlook, Hloop. }
  split; [done|]. split; [done|].
  split; [intros ->; unfold main; by rewrite Hrun|].
  split; [by eapply search_throw_kinds|].
  apply lookup_ok_trace in Hlook as ->.
  apply for_roles_ok in Hpre as (_ & evs & _ & _ & -> & Hsent).
  split.
  - intros Hfatal.
    destruct (search_fatal rt w serpKey resend sender recipient role
                ((tr0 ++ [EFetch ("https://serpapi.com/account?api_key=" +:+ serpKey)]) ++ evs))
      as (e' & details & tr'' & Hs' & _ & Hn); try done; try apply Hcfg.
    rewrite Hs in Hs'. injection Hs' as <- <-.
    exists details. fold url in Hn.
    destruct Hn as [->|[msg ->]]; eexists; (split; [by (left + (right; by eexists))|]);
      rewrite <- !(assoc_L (++)); (split; [reflexivity|]);
      rewrite !sent_app, Hsent; reflexivity.
  - intros Hbad.
    destruct (fetch w _ url) as [msg|r] eqn:Hf; [done|].
    destruct Hbad as (Hok & msg & Hj).
    rewrite (search_unreadable rt w serpKey resend sender recipient role _ r msg Hf Hok Hj)
      in Hs.
    injection Hs as <- <-. eexists. split; [reflexivity|].
    rewrite <- !(assoc_L (++)). split; [reflexivity|].
    by rewrite !sent_app, Hsent.
Qed.

Lemma fatal_search_error_aborts_witness :
  let page := Responded {| status := 200; statusText := "OK"; body_text := "<html>";
                           body_json := BadJson "Unexpected token < in JSON" |} in
  let w := Example.scripted (Example.credits 5)
             [("A", Example.listing [Example.posting "Staff Engineer" "Acme" "today"]);
              ("B", page);
              ("C", Example.listing [])] in
  (main Reference.runtime w Example.env).2 = 1 /\
  exists tr,
    fetchJobs Reference.runtime w Example.env []
      = (tr, Throw (Error "Unexpected token < in JSON")) /\
    fetched tr = ["https://serpapi.com/account?api_key=k";
                  search_url "A" Example.serpKey;
                  search_url "B" Example.serpKey] /\
    sent tr = [].
Proof.
  intros page w.
  edestruct (fatal_search_error_aborts Reference.runtime w Example.env Example.serpKey
               "re_1" Example.sender Example.recipient ["A"] "B" ["C"] [])
    as (_ & Hrun & Hexit & _ & _ & Hbad).
  - by split.
  - evaluate.
  - evaluate.
  - number_decide.
  - evaluate.
  - reflexivity.
  - split; [by apply Hexit|]. eexists. split; [exact Hrun|].
    destruct Hbad as (evs & _ & E & Hsent).
    + split; [reflexivity|]. by eexists.
    + split; [reflexivity|]. simpl in E. by rewrite E.
Defined.

(** C5.  Once the account lookup and the loop are over: if the run was
    without event (every role searched, no search ending on a quota error,
    no search yielding a posting) [fetchJobs] returns without handing any
    mail to the provider; otherwise it hands over exactly one mail, whose
    text is the sections, one per role in the order of the roles, joined by
    blank lines. *)
Theorem report_sent_unless_quiet
    (rt : Runtime) (w : World) (env : Env) (serpKey resendKey sender recipient : string)
    (roles : list string) (tr0 tr1 tr2 : trace) (n : number) (st : LoopState) :
  let resend := Some {| api_key := resendKey |} in
  configured env serpKey resendKey sender recipient roles ->
  fetchRemainingSearches rt w serpKey resend sender recipient tr0 = (tr1, Ok n) ->
  for_roles rt w serpKey resend sender recipient n (initial_state n) roles tr1 = (tr2, Ok st) ->
  exists evs res,
    fetchJobs rt w env tr0 = (tr0 ++ evs, res) /\
    (quiet rt w serpKey resend sender recipient (initial_state n) roles tr1 ->
     res = Ok tt /\ sent evs = []) /\
    (~ quiet rt w serpKey resend sender recipient (initial_state n) roles tr1 ->
     exists m,
       sent evs = [m] /\ m = report sender recipient (sections st) /\
       text m = Js.join (nl +:+ nl) (sections st) /\
       Forall2 is_section_of roles (sections st)).
Proof.
  intros resend Hcfg Hlook Hloop.
  pose proof (for_roles_flags rt w serpKey resend sender recipient n _ _ _ _ _ Hloop)
    as Hflags. simpl in Hflags.
  rewrite (fetchJobs_configured rt w env _ _ _ _ _ Hcfg). run.
  fold resend. rewrite Hlook, Hloop.
  apply lookup_ok_trace in Hlook as ->.
  destruct (for_roles_ok rt w serpKey resend sender recipient n _ _ _ _ _ Hloop)
    as (new & evs & Hsec & Hall & -> & Hsent).
  simpl in Hsec. subst new.
  destruct (decide (quotaTriggered st = false /\ hasAnyPosting st = false)) as [[Hq Hp]|Hno].
  - rewrite finish_silent by done. eexists _, _. rewrite <- !(assoc_L (++)).
    split; [reflexivity|]. split.
    + intros _. split; [done|]. by rewrite !sent_app, Hsent.
    + intros Hnq. destruct Hnq. by apply Hflags.
  - rewrite finish_report by done.
    assert (~ quiet rt w serpKey resend sender recipient (initial_state n) roles
                (tr0 ++ [EFetch ("https://serpapi.com/account?api_key=" +:+ serpKey)]))
      as Hnq by (intros Hq; apply Hno, Hflags; done).
    destruct (deliver w _ _); eexists _, _; rewrite <- !(assoc_L (++));
      (split; [reflexivity|]); (split; [done|]); intros _; eexists;
      (split; [by rewrite !sent_app, Hsent|done]).
Qed.

Lemma report_sent_unless_quiet_witness :
  let w := Example.scripted (Example.credits 5)
             [("A", Example.listing [Example.posting "Staff Engineer" "Acme" "2 weeks ago"]);
              ("B", Example.listing []);
              ("C", Example.respond 200 "OK" Example.nothing)] in
  exists tr, fetchJobs Reference.runtime w Example.env [] = (tr, Ok tt) /\ sent tr = [].
Proof.
  intros w.
  edestruct (report_sent_unless_quiet Reference.runtime w Example.env Example.serpKey
               "re_1" Example.sender Example.recipient ["A"; "B"; "C"] [])
    as (evs & res & Hrun & Hquiet & _).
  - by split.
  - evaluate.
  - evaluate.
  - destruct Hquiet as [-> Hsent].
    + simpl. split; [number_decide|]. eexists. split; [evaluate|].
      split; [number_decide|]. eexists. split; [evaluate|].
      split; [number_decide|]. eexists. split; [evaluate|]. done.
    + exists evs. split; [exact Hrun|exact Hsent].
Defined.

(** * Further properties of the script *)

(** ** Role queries and normalised texts *)

Section MoreStrings.
Import Js JsFacts.

Lemma trimEnd_idem s : trimEnd (trimEnd s) = trimEnd s.
Proof.
  induction s as [|c s IH]; [done|]. simpl.
  destruct (trimEnd s) as [|d r] eqn:E.
  - destruct (is_space c) eqn:Hc; [done|]. simpl. by rewrite Hc.
  - rewrite trimEnd_cons_nonempty; rewrite IH; done.
Qed.

Lemma trimStart_head s :
  match trimStart s with String c _ => is_space c = false | EmptyString => True end.
Proof.
  induction s as [|c s IH]; [done|]. simpl.
  destruct (is_space c) eqn:Hc; [exact IH|exact Hc].
Qed.

Lemma trimStart_id c s : is_space c = false -> trimStart (String c s) = String c s.
Proof. intros H. simpl. by rewrite H. Qed.

Lemma trimEnd_head s : trimEnd s <> "" -> head (trimEnd s) = head s.
Proof.
  destruct s as [|c s]; [done|]. simpl.
  destruct (trimEnd s); [|done]. by destruct (is_space c).
Qed.

Lemma trim_idem s : trim (trim s) = trim s.
Proof.
  unfold trim. pose proof (trimStart_head s) as Hh.
  destruct (trimStart s) as [|c u] eqn:Eu; [done|].
  destruct (trimEnd (String c u)) as [|d v] eqn:Ev; [done|].
  assert (head (String d v) = Some c) as Hd.
  { rewrite <- Ev. rewrite trimEnd_head; [done|]. by rewrite Ev. }
  injection Hd as ->. rewrite trimStart_id by done.
  rewrite <- Ev. apply trimEnd_idem.
Qed.

Lemma lower_char_idem c : lower_char (lower_char c) = lower_char c.
Proof. each_char c. Qed.

Lemma toLowerCase_idem s : toLowerCase (toLowerCase s) = toLowerCase s.
Proof. induction s as [|c s IH]; [done|]. simpl. by rewrite lower_char_idem, IH. Qed.

(** *** Splitting and joining *)

Lemma split_free sep x :
  all_chars (fun c => negb (bool_decide (c = sep))) x = true -> split sep x = [x].
Proof.
  induction x as [|c x IH]; [done|]. simpl. intros [Hc Hx]%andb_prop.
  apply negb_true_iff, bool_decide_eq_false in Hc.
  rewrite decide_False by done. by rewrite IH.
Qed.

Lemma split_app_free sep x rest :
  all_chars (fun c => negb (bool_decide (c = sep))) x = true ->
  split sep (x +:+ String sep rest) = x :: split sep rest.
Proof.
  induction x as [|c x IH].
  - intros _. rewrite app_nil_l. simpl. by rewrite decide_True.
  - intros H. simpl in H. apply andb_prop in H as [Hc Hx].
    apply negb_true_iff, bool_decide_eq_false in Hc.
    rewrite app_cons. simpl. rewrite decide_False by done. by rewrite IH.
Qed.

Lemma split_join sep pieces :
  pieces <> [] ->
  Forall (fun x => all_chars (fun c => negb (bool_decide (c = sep))) x = true) pieces ->
  split sep (join (String sep "") pieces) = pieces.
Proof.
  intros Hne Hall. induction Hall as [|x l Hx Hl IH]; [done|].
  destruct l as [|y l].
  - simpl. by apply split_free.
  - change (join (String sep "") (x :: y :: l))
      with (x +:+ String sep "" +:+ join (String sep "") (y :: l)).
    rewrite app_cons, app_nil_l, split_app_free by done. by rewrite IH.
Qed.

Lemma split_pieces_free sep s :
  Forall (fun x => all_chars (fun c => negb (bool_decide (c = sep))) x = true) (split sep s).
Proof.
  induction s as [|c s IH]; simpl; [by repeat constructor|].
  case_decide as Hc; [by constructor|].
  destruct (split sep s) as [|w ws]; [repeat constructor; simpl|].
  - by rewrite bool_decide_eq_false_2.
  - inversion IH; subst. constructor; [|done]. simpl.
    by rewrite bool_decide_eq_false_2.
Qed.

Lemma parseRoleQueries_Some raw :
  parseRoleQueries (Some raw) =
  filter (fun role => is_empty role = false) (map trim (split ","%char raw)).
Proof. unfold parseRoleQueries. by destruct raw. Qed.

End MoreStrings.

(** X1.  Every role query that [parseRoleQueries] returns is not empty, has
    no white space at its ends and holds no comma, whatever the setting. *)
Theorem parseRoleQueries_well_formed (rawRoles : option string) :
  Forall well_formed_role (parseRoleQueries rawRoles).
Proof.
  destruct rawRoles as [raw|]; [|constructor].
  rewrite parseRoleQueries_Some. apply Forall_forall.
  intros role [Hne Hin]%list_elem_of_filter.
  apply list_elem_of_fmap in Hin as (piece & -> & Hin).
  split; [by intros E; rewrite E in Hne|]. split; [apply trim_idem|].
  apply JsFacts.all_chars_trim.
  pose proof (split_pieces_free ","%char raw) as Hall.
  by apply (proj1 (Forall_forall _ _) Hall).
Qed.

(** X2.  Written as pieces separated by commas, the setting is read back as
    the pieces, each without the white space at its ends, the blank ones
    left out, in their order; role queries that are well formed are read
    back as they are. *)
Theorem parseRoleQueries_join (pieces : list string) :
  Forall (fun piece => comma_free piece = true) pieces ->
  parseRoleQueries (Some (Js.join "," pieces)) =
    filter (fun role => Js.is_empty role = false) (map Js.trim pieces) /\
  (Forall well_formed_role pieces ->
   parseRoleQueries (Some (Js.join "," pieces)) = pieces).
Proof.
  intros Hfree.
  assert (parseRoleQueries (Some (Js.join "," pieces)) =
          filter (fun role => Js.is_empty role = false) (map Js.trim pieces)) as E.
  { rewrite parseRoleQueries_Some. destruct pieces as [|x l]; [done|].
    by rewrite split_join. }
  split; [exact E|]. intros Hwf. rewrite E. clear E Hfree.
  induction Hwf as [|x l (Hne & Ht & _) _ IH]; [done|].
  simpl. rewrite filter_cons, Ht. rewrite decide_True by (by destruct x).
  by rewrite IH.
Qed.

Lemma parseRoleQueries_join_witness :
  parseRoleQueries (Some (Js.join "," [" Staff Engineer remote "; "  "; "Data Engineer"]))
  = ["Staff Engineer remote"; "Data Engineer"].
Proof.
  apply (proj1 (parseRoleQueries_join [" Staff Engineer remote "; "  "; "Data Engineer"]
                  ltac:(repeat constructor))).
Defined.

(** X3.  [normalizeText] yields a canonical text: normalising it again, or
    trimming it, or putting it in lower case, changes nothing. *)
Theorem normalizeText_canonical (value : field) :
  normalizeText (Str (normalizeText value)) = normalizeText value /\
  Js.trim (normalizeText value) = normalizeText value /\
  Js.toLowerCase (normalizeText value) = normalizeText value.
Proof.
  unfold normalizeText. simpl or_empty.
  assert (Js.trim (Js.toLowerCase (Js.trim (or_empty value)))
          = Js.toLowerCase (Js.trim (or_empty value))) as Ht.
  { by rewrite <- toLowerCase_trim, trim_idem. }
  split; [by rewrite Ht, toLowerCase_idem|]. split; [exact Ht|apply toLowerCase_idem].
Qed.

(** ** More on duplicates *)

(** X4.  [removeDuplicates] loses no key and adds nothing: its result is not
    longer than its argument, and for every posting of the argument a
    posting with the same key is in the result. *)
Theorem removeDuplicates_keeps_every_key (jobs : list JobPosting) :
  (length (removeDuplicates jobs) <= length jobs)%nat /\
  (forall job, job ∈ jobs ->
     exists kept, kept ∈ removeDuplicates jobs /\ dedupe_key kept = dedupe_key job) /\
  (forall kept, kept ∈ removeDuplicates jobs -> kept ∈ jobs).
Proof.
  split; [apply sublist_length, removeDuplicates_sublist|]. split.
  - intros job Hin.
    assert (dedupe_key job ∈ dedupe_key <$> removeDuplicates jobs) as Hk.
    { apply removeDuplicates_keys, list_elem_of_fmap. by exists job. }
    apply list_elem_of_fmap in Hk as (kept & E & Hkept). by exists kept.
  - intros kept Hin. eapply elem_of_sublist; [exact Hin|apply removeDuplicates_sublist].
Qed.

(** X5.  The lists that [removeDuplicates] leaves as they are, are the lists
    in which no key occurs twice. *)
Theorem removeDuplicates_fixed_points (jobs : list JobPosting) :
  removeDuplicates jobs = jobs <-> NoDup (dedupe_key <$> jobs).
Proof.
  split.
  - intros E. rewrite <- E. apply removeDuplicates_NoDup.
  - induction jobs as [|job pre IH] using rev_ind; [done|].
    rewrite fmap_app. intros (Hpre & Hdis & _)%NoDup_app.
    rewrite removeDuplicates_snoc, IH by done.
    rewrite decide_False; [done|].
    intros Hin. apply (Hdis _ Hin). simpl. apply list_elem_of_singleton. done.
Qed.

(** X6.  Deduplicating two lists put end to end: the first list is
    deduplicated on its own, and of the second, deduplicated on its own,
    the postings stay whose key the first list does not hold. *)
Theorem removeDuplicates_app (a b : list JobPosting) :
  removeDuplicates (a ++ b) =
  removeDuplicates a ++
    filter (fun job => dedupe_key job ∉ dedupe_key <$> a) (removeDuplicates b).
Proof.
  induction b as [|job b IH] using rev_ind.
  - rewrite (right_id_L [] (++) a). change (removeDuplicates []) with (@nil JobPosting).
    by rewrite filter_nil, (right_id_L [] (++)).
  - rewrite (assoc_L (++)), !removeDuplicates_snoc, IH, filter_app, <- (assoc_L (++)).
    f_equal. f_equal. rewrite fmap_app.
    destruct (decide (dedupe_key job ∈ dedupe_key <$> b)) as [Hb|Hb].
    + rewrite decide_True; [done|]. apply elem_of_app. by right.
    + destruct (decide (dedupe_key job ∈ dedupe_key <$> a)) as [Ha|Ha].
      * rewrite decide_True by (apply elem_of_app; by left).
        rewrite filter_cons, decide_False; [done|]. by intros H.
      * rewrite decide_False by (by intros [?|?]%elem_of_app).
        by rewrite filter_cons, decide_True.
Qed.

(** ** The classifier, read backwards *)

Section Classifier.
Import Js JsFacts.

Lemma last_of_app prev a b : last_of prev (a +:+ b) = last_of (last_of prev a) b.
Proof.
  revert prev. induction a as [|c a IH]; intros prev; [done|].
  rewrite app_cons. simpl. apply IH.
Qed.

(** A match of [/\b lit \b/] is an occurrence of [lit] with a word boundary
    on each side. *)
Lemma test_bounded_from_inv prev lit s :
  test_bounded_from prev lit s = true ->
  exists a b,
    s = a +:+ lit +:+ b /\
    word_boundary (last_of prev a) (head (lit +:+ b)) = true /\
    word_boundary (last_of prev (a +:+ lit)) (head b) = true.
Proof.
  revert prev. induction s as [|c s IH]; intros prev H.
  - simpl in H. rewrite orb_false_r in H. unfold bounded_here in H.
    apply andb_prop in H as [H1 H2].
    destruct (strip_prefix lit "") as [rest|] eqn:E; [|done].
    apply strip_prefix_Some in E. exists "", rest. rewrite !app_nil_l.
    split; [done|]. by rewrite <- E.
  - simpl in H. apply orb_prop in H as [H|H].
    + unfold bounded_here in H. apply andb_prop in H as [H1 H2].
      destruct (strip_prefix lit (String c s)) as [rest|] eqn:E; [|done].
      apply strip_prefix_Some in E. exists "", rest. rewrite !app_nil_l.
      split; [done|]. by rewrite <- E.
    + destruct (IH _ H) as (a & b & -> & Ha & Hb).
      exists (String c a), b. rewrite !app_cons. by split.
Qed.

Lemma replace_dot_comma_split x a b :
  replace_dot_comma x = a +:+ b ->
  exists x1 x2, x = x1 +:+ x2 /\ replace_dot_comma x1 = a /\ replace_dot_comma x2 = b.
Proof.
  revert x. induction a as [|c a IH]; intros x E.
  - by exists "", x.
  - destruct x as [|y x]; [done|]. rewrite app_cons in E. simpl in E.
    injection E as Hy E. destruct (IH _ E) as (x1 & x2 & -> & <- & <-).
    exists (String y x1), x2. simpl. by rewrite Hy.
Qed.

(** A text without a space is the image of itself only. *)
Lemma replace_dot_comma_spaceless x p :
  replace_dot_comma x = p ->
  all_chars (fun c => negb (bool_decide (c = " "%char))) p = true -> x = p.
Proof.
  revert p. induction x as [|c x IH]; intros p E Hp; [done|].
  simpl in E. subst p. simpl in Hp. apply andb_prop in Hp as [Hc Hp].
  rewrite (IH _ eq_refl Hp) at 1. f_equal.
  repeat case_decide; try done; exfalso; by apply negb_true_iff, bool_decide_eq_false in Hc.
Qed.

Lemma trimStart_prefix s :
  exists l, s = l +:+ trimStart s /\ all_chars is_space l = true.
Proof.
  induction s as [|c s (l & E & Hl)]; [by exists ""|]. simpl.
  destruct (is_space c) eqn:Hc.
  - exists (String c l). rewrite app_cons, <- E. simpl. by rewrite Hc, Hl.
  - by exists "".
Qed.

Lemma trimEnd_suffix s :
  exists r, s = trimEnd s +:+ r /\ all_chars is_space r = true.
Proof.
  induction s as [|c s (r & E & Hr)]; [by exists ""|]. simpl.
  destruct (trimEnd s) as [|d u] eqn:Eu.
  - rewrite app_nil_l in E. subst r. destruct (is_space c) eqn:Hc.
    + exists (String c s). rewrite app_nil_l. simpl. by rewrite Hc, Hr.
    + exists s. by rewrite app_cons, app_nil_l.
  - exists r. by rewrite app_cons, <- E.
Qed.

Lemma trim_infix s :
  exists l r, s = l +:+ trim s +:+ r /\
              all_chars is_space l = true /\ all_chars is_space r = true.
Proof.
  destruct (trimStart_prefix s) as (l & E & Hl).
  destruct (trimEnd_suffix (trimStart s)) as (r & E' & Hr).
  exists l, r. unfold trim. by rewrite <- E', <- E.
Qed.

Lemma is_word_last_of_spaces o l :
  is_word o = false -> all_chars is_space l = true -> is_word (last_of o l) = false.
Proof.
  revert o. induction l as [|c l IH]; intros o Ho Hl; [done|]. simpl in *.
  apply andb_prop in Hl as [Hc Hl]. apply IH; [|done]. by apply space_not_word.
Qed.

Lemma is_word_last_after_spaces l x :
  all_chars is_space l = true -> is_word (last_of None x) = false ->
  is_word (last_of None (l +:+ x)) = false.
Proof.
  intros Hl Hx. rewrite last_of_app. destruct x as [|c x].
  - simpl. by apply is_word_last_of_spaces.
  - by rewrite (last_of_cons _ None).
Qed.

Lemma is_word_head_before_spaces x r :
  all_chars is_space r = true -> is_word (head x) = false ->
  is_word (head (x +:+ r)) = false.
Proof.
  intros Hr Hx. destruct x as [|c x]; [|done]. rewrite app_nil_l.
  destruct r as [|c r]; [done|]. simpl in *.
  apply andb_prop in Hr as [Hc _]. by apply space_not_word.
Qed.

Lemma includes_infix t l m r : includes t m = true -> includes t (l +:+ m +:+ r) = true.
Proof.
  intros (a & b & ->)%includes_true.
  rewrite <- (app_assoc l), !app_assoc, <- (app_assoc l a). apply includes_app.
Qed.

(** The text rules, read back on the raw string. *)
Lemma just_text_inv t s :
  includes t (trim (toLowerCase s)) = true -> has_text t s.
Proof.
  intros H. destruct (trim_infix (toLowerCase s)) as (l & r & E & _ & _).
  apply includes_lower_has_text. rewrite E. by apply includes_infix.
Qed.

Lemma relative_word_inv p s :
  is_word (head p) = true -> is_word (last_of None p) = true ->
  all_chars (fun c => negb (bool_decide (c = " "%char))) p = true ->
  test_bounded p (sanitized s) = true -> has_word p s.
Proof.
  intros Hh Hl Hsp H.
  apply test_bounded_from_inv in H as (A & B & E & HA & HB).
  assert (is_word (last_of None A) = false) as HA'.
  { unfold word_boundary in HA. destruct p as [|c p]; [done|].
    rewrite app_cons in HA. simpl in HA, Hh. rewrite Hh in HA.
    by destruct (is_word (last_of None A)). }
  assert (is_word (head B) = false) as HB'.
  { unfold word_boundary in HB. rewrite last_of_app in HB.
    destruct p as [|c p]; [done|]. rewrite (last_of_cons _ None), Hl in HB.
    by destruct (is_word (head B)). }
  clear HA HB. unfold sanitized in E.
  apply replace_dot_comma_split in E as (x1 & rest & E & <- & E2).
  apply replace_dot_comma_split in E2 as (xp & x2 & -> & Ep & <-).
  apply replace_dot_comma_spaceless in Ep; [|done]. subst xp.
  rewrite is_word_last_sanitized in HA'. rewrite is_word_head_sanitized in HB'.
  destruct (trim_infix (toLowerCase s)) as (l & r & Es & Hl' & Hr').
  rewrite E in Es. rewrite !app_assoc, <- (app_assoc l x1) in Es.
  apply toLowerCase_split in Es as (pre & rest & -> & Epre & Es).
  apply toLowerCase_split in Es as (w & post & -> & Ew & Epost).
  exists pre, w, post. split; [done|]. split; [done|]. split.
  - rewrite <- (is_word_last_lower None), Epre. by apply is_word_last_after_spaces.
  - rewrite <- is_word_head_lower, Epost. by apply is_word_head_before_spaces.
Qed.

End Classifier.

(** X7.  [isPostedToday] answers true in these cases and in no other: the
    string, not empty, contains "just posted" or "just now" in any letter
    case, or contains one of the relative words as a whole word in any
    letter case, or is read by the engine as a date of today. *)
Theorem isPostedToday_exactly (rt : Runtime) (s : string) :
  isPostedToday rt (Str s) = true <->
  s <> "" /\
  (has_text "just posted" s \/ has_text "just now" s \/
   (exists p, In p relativePatterns /\ has_word p s) \/
   date_parse rt s = Some (date_now rt)).
Proof.
  split.
  - unfold isPostedToday. simpl falsy. simpl or_empty.
    destruct s as [|c0 s0]; [done|]. cbn [Js.is_empty]. set (s := String c0 s0).
    intros H. split; [done|]. revert H.
    destruct (Js.includes "just posted" _) eqn:E1;
      [intros _; left; by apply just_text_inv|].
    destruct (Js.includes "just now" _) eqn:E2;
      [intros _; right; left; by apply just_text_inv|].
    cbn [orb]. fold (sanitized s).
    destruct (existsb _ relativePatterns) eqn:E3.
    + intros _. right. right. left. apply existsb_exists in E3 as (p & Hin & Hp).
      exists p. split; [done|]. simpl in Hin.
      repeat (destruct Hin as [<-|Hin]; [by apply relative_word_inv|]). done.
    + intros H. right. right. right. destruct (date_parse rt s) as [d|]; [|done].
      f_equal. by apply same_day_eq.
  - intros (Hne & [H|[H|[(p & Hin & H)|H]]]).
    + apply isPostedToday_text. by left.
    + apply isPostedToday_text. by right.
    + by apply isPostedToday_word with p.
    + unfold isPostedToday. simpl falsy. simpl or_empty.
      destruct s as [|c0 s0]; [done|]. cbn [Js.is_empty].
      destruct (_ || _); [done|]. destruct (existsb _ _); [done|].
      rewrite H. by apply same_day_eq.
Qed.

(** ** The search URL *)

Section Uri.
Import Js JsFacts.

Lemma encodeURIComponent_cons c s :
  encodeURIComponent (String c s) =
  encodeURIComponent (String c "") +:+ encodeURIComponent s.
Proof. simpl. by rewrite app_nil_r. Qed.

Lemma encodeURIComponent_one_safe c :
  all_chars uri_safe (encodeURIComponent (String c "")) = true.
Proof. each_char c. Qed.

Lemma encodeURIComponent_one_unreserved c :
  uri_unreserved c = true -> encodeURIComponent (String c "") = String c "".
Proof. each_char c; discriminate. Qed.

Lemma decode_step_encode c rest :
  decode_step (encodeURIComponent (String c "") +:+ rest) = Some (c, rest).
Proof. each_char c. Qed.

Lemma encodeURIComponent_one_head c rest :
  head (encodeURIComponent (String c "") +:+ rest) <> Some "&"%char.
Proof. each_char c; discriminate. Qed.

Lemma encodeURIComponent_inj_before_amp s1 s2 t1 t2 :
  encodeURIComponent s1 +:+ String "&" t1 = encodeURIComponent s2 +:+ String "&" t2 ->
  s1 = s2 /\ t1 = t2.
Proof.
  revert s2. induction s1 as [|c1 s1 IH]; intros [|c2 s2] E.
  - by injection E as ->.
  - rewrite (encodeURIComponent_cons c2 s2), app_assoc in E. exfalso.
    apply (encodeURIComponent_one_head c2 (encodeURIComponent s2 +:+ String "&" t2)).
    by rewrite <- E.
  - rewrite (encodeURIComponent_cons c1 s1), app_assoc in E. exfalso.
    apply (encodeURIComponent_one_head c1 (encodeURIComponent s1 +:+ String "&" t1)).
    by rewrite E.
  - rewrite (encodeURIComponent_cons c1 s1), (encodeURIComponent_cons c2 s2),
      !app_assoc in E.
    apply (f_equal decode_step) in E. rewrite !decode_step_encode in E.
    injection E as -> E. by destruct (IH _ E) as [-> ->].
Qed.

End Uri.

(** X8.  [encodeURIComponent] writes only unreserved characters and
    percent signs, whatever the role query, and a role query made of
    unreserved characters is written as it is. *)
Theorem encodeURIComponent_safe (s : string) :
  all_chars uri_safe (Js.encodeURIComponent s) = true /\
  (all_chars Js.uri_unreserved s = true -> Js.encodeURIComponent s = s).
Proof.
  split.
  - induction s as [|c s IH]; [done|].
    by rewrite (encodeURIComponent_cons c s), JsFacts.all_chars_app,
         encodeURIComponent_one_safe, IH.
  - induction s as [|c s IH]; [done|]. simpl all_chars.
    intros [Hc Hs]%andb_prop.
    by rewrite (encodeURIComponent_cons c s), encodeURIComponent_one_unreserved, IH.
Qed.

(** X9.  The search URL tells the role query and the key apart: searches
    for different roles, or with different keys, have different URLs. *)
Theorem search_url_inj (role1 key1 role2 key2 : string) :
  role1 <> role2 \/ key1 <> key2 ->
  search_url role1 key1 <> search_url role2 key2.
Proof.
  intros Hne E. unfold search_url in E. apply (inj (String.app _)) in E.
  rewrite !(JsFacts.app_cons "&") in E.
  apply encodeURIComponent_inj_before_amp in E as [-> E].
  apply (inj (String.app _)) in E. by destruct Hne.
Qed.

Lemma search_url_inj_witness :
  bool_decide (search_url "Staff Engineer" "k" = search_url "Staff+Engineer" "k") = false.
Proof. apply bool_decide_eq_false_2, search_url_inj. left. discriminate. Defined.

(** ** Requests and notices *)

Section Network.
Import Js JsFacts.

Variables (rt : Runtime) (w : World).
Variables (serpKey : string) (resend : option Resend) (sender recipient : string).

Lemma fetched_app a b : fetched (a ++ b) = fetched a ++ fetched b.
Proof. apply omap_app. Qed.

Lemma at_most_a_notice_nil : at_most_a_notice sender recipient [].
Proof. by left. Qed.

Lemma at_most_a_notice_fetch url evs :
  at_most_a_notice sender recipient evs ->
  at_most_a_notice sender recipient (EFetch url :: evs).
Proof. done. Qed.

(** What a call of [notifySerpFailure] adds to the trace. *)
Lemma notifySerpFailure_events details tr :
  exists rest,
    notifySerpFailure w resend sender recipient details tr = (tr ++ rest, Ok tt) /\
    fetched rest = [] /\
    at_most_a_notice sender recipient rest /\
    (resend = None \/ sender = "" \/ recipient = "" -> rest = []) /\
    (resend <> None -> sender <> "" -> recipient <> "" ->
     sent rest = [notice sender recipient details]).
Proof.
  unfold notifySerpFailure.
  destruct (bool_decide (resend = None)) eqn:Hr.
  { apply bool_decide_eq_true in Hr. exists []. rewrite (right_id_L [] (++)).
    repeat split; try done. by left. }
  apply bool_decide_eq_false in Hr.
  destruct sender as [|a s].
  { exists []. rewrite (right_id_L [] (++)). repeat split; try done. by left. }
  destruct recipient as [|b r].
  { exists []. rewrite (right_id_L [] (++)). repeat split; try done. by left. }
  cbn [orb is_empty]. run. unfold send, notice.
  destruct (deliver w tr _).
  - eexists [_; _]. rewrite <- (assoc_L (++)). repeat split; try done.
    + right. by eexists.
    + intros [?|[?|?]]; done.
  - eexists [_]. repeat split; try done.
    + right. by eexists.
    + intros [?|[?|?]]; done.
Qed.

Lemma request_events_plain {A} q tr url (res : result A) :
  match res with Ok _ => True | Throw e => q e = true -> True end ->
  request_events sender recipient q tr url (tr ++ [EFetch url], res).
Proof. intros _. exists []. repeat split; try done; [by left|by destruct res]. Qed.

Lemma request_events_notify {A} q tr url details (e : error) :
  q e = false ->
  request_events (A := A) sender recipient q tr url
    (let (tr', r) := notifySerpFailure w resend sender recipient details (tr ++ [EFetch url]) in
     match r with
     | Ok _ => (tr', Throw e)
     | Throw e0 => (tr', Throw e0)
     end).
Proof.
  intros Hq.
  destruct (notifySerpFailure_events details (tr ++ [EFetch url]))
    as (rest & E & Hf & Hs & _).
  rewrite E. exists rest. simpl. rewrite <- (assoc_L (++)).
  repeat split; try done. by rewrite Hq.
Qed.

Lemma search_events role tr :
  request_events sender recipient isQuotaExceededError tr (search_url role serpKey)
    (fetchRoleResults rt w role serpKey resend sender recipient tr).
Proof.
  unfold fetchRoleResults. run.
  destruct (fetch w tr (search_url role serpKey)) as [msg|r];
    [by apply request_events_notify|].
  destruct (status r =? 429); [by apply request_events_plain|].
  destruct (negb (ok r)); [by apply request_events_notify|].
  destruct (body_json r) as [msg|p]; [by apply request_events_plain|].
  destruct (negb (falsy (error_field p))).
  - destruct (isQuotaErrorMessage (error_field p));
      [by apply request_events_plain|by apply request_events_notify].
  - destruct (jobs_results p); by apply request_events_plain.
Qed.

Lemma lookup_events tr :
  request_events sender recipient (fun _ => false) tr ("https://serpapi.com/account?api_key=" +:+ serpKey)
    (fetchRemainingSearches rt w serpKey resend sender recipient tr).
Proof.
  unfold fetchRemainingSearches. run.
  destruct (fetch w tr _) as [msg|r]; [by apply request_events_notify|].
  destruct (negb (ok r)); [by apply request_events_notify|].
  destruct (body_json r) as [msg|p]; [by apply request_events_plain|].
  destruct (remaining_of rt p);
    [by apply request_events_plain|by apply request_events_notify..].
Qed.

End Network.

(** X10.  [notifySerpFailure] is best effort: it never throws, even when the
    mail provider does, it queries nothing, it hands over the notice when
    the client and both addresses are there, and nothing otherwise. *)
Theorem notifySerpFailure_best_effort
    (w : World) (resend : option Resend) (sender recipient details : string) (tr : trace) :
  exists rest,
    notifySerpFailure w resend sender recipient details tr = (tr ++ rest, Ok tt) /\
    fetched rest = [] /\
    (resend = None \/ sender = "" \/ recipient = "" -> rest = []) /\
    (resend <> None -> sender <> "" -> recipient <> "" ->
     sent rest = [notice sender recipient details]).
Proof.
  destruct (notifySerpFailure_events w resend sender recipient details tr)
    as (rest & E & Hf & _ & Hnone & Hsome).
  by exists rest.
Qed.

(** X11.  Whatever the network answers, [fetchRoleResults] issues one
    request, the search for its role, and hands over at most one mail, a
    failure notice; it hands over none when it returns postings and none
    when it reports an exhausted quota. *)
Theorem fetchRoleResults_one_request
    (rt : Runtime) (w : World) (serpKey : string) (resend : option Resend)
    (sender recipient role : string) (tr : trace) :
  exists evs res,
    fetchRoleResults rt w role serpKey resend sender recipient tr = (tr ++ evs, res) /\
    fetched evs = [search_url role serpKey] /\
    at_most_a_notice sender recipient evs /\
    match res with
    | Ok _ => sent evs = []
    | Throw e => isQuotaExceededError e = true -> sent evs = []
    end.
Proof.
  destruct (search_events rt w serpKey resend sender recipient role tr)
    as (rest & E & Hf & Hs & Hres).
  destruct (fetchRoleResults rt w role serpKey resend sender recipient tr) as [tr' res].
  simpl in *. subst tr'.
  exists (EFetch (search_url role serpKey) :: rest), res.
  split; [done|].
  split; [change (search_url role serpKey :: fetched rest = [search_url role serpKey]);
          by rewrite Hf|].
  split; [exact Hs|]. destruct res as [jobs|e].
  - by rewrite Hres.
  - intros He. by rewrite (Hres He).
Qed.

(** X12.  The postings that [fetchRoleResults] returns are postings of the
    response, in their order, each classified as posted today, no two with
    the same key. *)
Theorem fetchRoleResults_fresh_and_distinct
    (rt : Runtime) (w : World) (serpKey : string) (resend : option Resend)
    (sender recipient role : string) (tr tr' : trace) (jobs : list JobPosting) :
  fetchRoleResults rt w role serpKey resend sender recipient tr = (tr', Ok jobs) ->
  Forall (fun job => isPostedToday rt (posted_at job) = true) jobs /\
  NoDup (dedupe_key <$> jobs) /\
  (jobs = [] \/
   exists r p listed,
     fetch w tr (search_url role serpKey) = Responded r /\ body_json r = Json p /\
     jobs_results p = JobsArray listed /\ sublist jobs listed).
Proof.
  unfold fetchRoleResults. run.
  destruct (fetch w tr (search_url role serpKey)) as [msg|r] eqn:Hf.
  { destruct (notifySerpFailure_events w resend sender recipient
                ("SerpAPI request error for " +:+ dq +:+ role +:+ dq +:+ ": " +:+ msg)
                (tr ++ [EFetch (search_url role serpKey)])) as (rest & E & _).
    by rewrite E. }
  destruct (status r =? 429); [done|].
  destruct (negb (ok r)).
  { match goal with |- context [notifySerpFailure w resend sender recipient ?d ?t] =>
      destruct (notifySerpFailure_events w resend sender recipient d t) as (rest & E & _) end.
    by rewrite E. }
  destruct (body_json r) as [msg|p] eqn:Hj; [done|].
  destruct (negb (falsy (error_field p))).
  { destruct (isQuotaErrorMessage (error_field p)); [done|].
    match goal with |- context [notifySerpFailure w resend sender recipient ?d ?t] =>
      destruct (notifySerpFailure_events w resend sender recipient d t) as (rest & E & _) end.
    by rewrite E. }
  destruct (jobs_results p) as [|v|listed] eqn:Hjobs;
    intros [= <- <-]; try by (repeat split; [constructor..|by left]).
  split; [|split].
  - apply Forall_forall. intros job Hin.
    eapply elem_of_sublist in Hin; [|apply removeDuplicates_sublist].
    by apply list_elem_of_filter in Hin as [H _].
  - apply removeDuplicates_NoDup.
  - right. exists r, p, listed. repeat split; try done.
    etrans; [apply removeDuplicates_sublist|apply sublist_filter].
Qed.

Lemma fetchRoleResults_fresh_and_distinct_witness :
  exists tr' jobs,
    fetchRoleResults Reference.runtime
      (Example.scripted (Example.credits 2)
         [("A", Example.listing
                  [Example.posting "Staff Engineer" "Acme" "today";
                   Example.posting "Data Engineer" "Acme" "2 weeks ago";
                   Example.posting "staff engineer " "ACME" "1 hour ago"])])
      "A" Example.serpKey Example.resend Example.sender Example.recipient []
      = (tr', Ok jobs) /\
    NoDup (dedupe_key <$> jobs).
Proof.
  destruct (fetchRoleResults _ _ _ _ _ _ _ _) as [tr' [jobs|e]] eqn:E;
    [|vm_compute in E; discriminate].
  exists tr', jobs. split; [reflexivity|].
  exact (proj1 (proj2 (fetchRoleResults_fresh_and_distinct _ _ _ _ _ _ _ _ _ _ E))).
Defined.

(** X13.  [fetchRoleResults] reports an exhausted quota exactly when the
    answer is one: status 429, or a successful status with an error text
    containing "quota", "limit" or "exceeded" in any letter case. *)
Theorem fetchRoleResults_quota_exactly
    (rt : Runtime) (w : World) (serpKey : string) (resend : option Resend)
    (sender recipient role : string) (tr : trace) :
  (exists tr' e,
     fetchRoleResults rt w role serpKey resend sender recipient tr = (tr', Throw e) /\
     isQuotaExceededError e = true) <->
  (exists r, fetch w tr (search_url role serpKey) = Responded r /\ quota_response r).
Proof.
  split.
  - intros (tr' & e & E & He). revert E. unfold fetchRoleResults. run.
    destruct (fetch w tr (search_url role serpKey)) as [msg|r] eqn:Hf.
    { destruct (notifySerpFailure_events w resend sender recipient
                  ("SerpAPI request error for " +:+ dq +:+ role +:+ dq +:+ ": " +:+ msg)
                  (tr ++ [EFetch (search_url role serpKey)])) as (rest & E & _).
      rewrite E. intros [= _ <-]. done. }
    destruct (status r =? 429) eqn:H429.
    { intros _. exists r. split; [done|]. left. by apply Z.eqb_eq. }
    destruct (negb (ok r)) eqn:Hok.
    { match goal with |- context [notifySerpFailure w resend sender recipient ?d ?t] =>
        destruct (notifySerpFailure_events w resend sender recipient d t) as (rest & E & _) end.
      rewrite E. intros [= _ <-]. done. }
    apply negb_false_iff in Hok.
    destruct (body_json r) as [msg|p] eqn:Hj; [intros [= _ <-]; done|].
    destruct (negb (falsy (error_field p))) eqn:Hfal.
    + destruct (isQuotaErrorMessage (error_field p)) eqn:Hq.
      * intros _. exists r. split; [done|]. right. split; [done|].
        destruct (error_field p) as [| |msg] eqn:Hmsg; [done..|].
        exists p, msg. repeat split; try done.
        by apply isQuotaErrorMessage_has_text.
      * match goal with |- context [notifySerpFailure w resend sender recipient ?d ?t] =>
          destruct (notifySerpFailure_events w resend sender recipient d t) as (rest & E & _) end.
        rewrite E. intros [= _ <-]. done.
    + by destruct (jobs_results p).
  - intros (r & Hf & Hq).
    destruct (search_quota rt w serpKey resend sender recipient role tr r Hf Hq)
      as (e & E & He).
    by eexists _, e.
Qed.

(** X14.  A successful answer whose body is not JSON makes the account
    lookup and the search throw the error of the parser as they are, after
    the one request and without any notice. *)
Theorem unreadable_body_is_not_notified
    (rt : Runtime) (w : World) (serpKey : string) (resend : option Resend)
    (sender recipient role : string) (tr : trace) (r : Response) (msg : string) :
  ok r = true -> body_json r = BadJson msg ->
  (fetch w tr ("https://serpapi.com/account?api_key=" +:+ serpKey) = Responded r ->
   fetchRemainingSearches rt w serpKey resend sender recipient tr
     = (tr ++ [EFetch ("https://serpapi.com/account?api_key=" +:+ serpKey)],
        Throw (Error msg))) /\
  (fetch w tr (search_url role serpKey) = Responded r ->
   fetchRoleResults rt w role serpKey resend sender recipient tr
     = (tr ++ [EFetch (search_url role serpKey)], Throw (Error msg))).
Proof.
  intros Hok Hj. split; intros Hf.
  - unfold fetchRemainingSearches. run. by rewrite Hf, Hok, Hj.
  - unfold fetchRoleResults. run. by rewrite Hf, (ok_not_429 _ Hok), Hok, Hj.
Qed.

Lemma unreadable_body_is_not_notified_witness :
  let page := {| status := 200; statusText := "OK"; body_text := "<html>";
                 body_json := BadJson "Unexpected token < in JSON" |} in
  let w := Example.scripted (Responded page) [("A", Responded page)] in
  sent (fetchRemainingSearches Reference.runtime w Example.serpKey Example.resend
          Example.sender Example.recipient []).1 = [] /\
  sent (fetchRoleResults Reference.runtime w "A" Example.serpKey Example.resend
          Example.sender Example.recipient []).1 = [].
Proof.
  intros page w.
  destruct (unreadable_body_is_not_notified Reference.runtime w Example.serpKey
              Example.resend Example.sender Example.recipient "A" [] page
              "Unexpected token < in JSON" eq_refl eq_refl) as [Hl Hs].
  rewrite (Hl eq_refl), (Hs eq_refl). split; reflexivity.
Defined.

(** X15.  When the first two counters are absent or null, a [searches_left]
    that is null is read as zero searches, while a [searches_left] that is
    absent makes the lookup fail. *)
Theorem null_counter_reads_as_zero
    (rt : Runtime) (w : World) (serpKey : string) (resend : option Resend)
    (sender recipient : string) (tr : trace) (r : Response) (p : Payload) :
  fetch w tr ("https://serpapi.com/account?api_key=" +:+ serpKey) = Responded r ->
  ok r = true -> body_json r = Json p ->
  nullish (total_searches_left p) = true -> nullish (plan_searches_left p) = true ->
  (searches_left p = VNull ->
   fetchRemainingSearches rt w serpKey resend sender recipient tr
     = (tr ++ [EFetch ("https://serpapi.com/account?api_key=" +:+ serpKey)], Ok 0)) /\
  (searches_left p = VUndefined ->
   exists tr' e,
     fetchRemainingSearches rt w serpKey resend sender recipient tr = (tr', Throw e)).
Proof.
  intros Hf Hok Hj Ht Hp.
  pose proof (lookup_json rt w serpKey resend sender recipient tr r p Hf Hok Hj) as H.
  assert (chosen p = searches_left p) as Hc.
  { unfold chosen. destruct (total_searches_left p), (plan_searches_left p); done. }
  rewrite Hc in H. split; intros Hs; rewrite Hs in H; simpl in H; [done|].
  destruct H as (tr' & E & _). by eexists _, _.
Qed.

Lemma null_counter_reads_as_zero_witness :
  fetchRemainingSearches Reference.runtime
    (Example.scripted
       (Example.respond 200 "OK"
          {| total_searches_left := VUndefined; plan_searches_left := VNull;
             searches_left := VNull; error_field := Undefined;
             error_code := Undefined; jobs_results := JobsAbsent |}) [])
    Example.serpKey Example.resend Example.sender Example.recipient []
  = ([EFetch ("https://serpapi.com/account?api_key=" +:+ Example.serpKey)], Ok 0).
Proof.
  eapply (null_counter_reads_as_zero Reference.runtime _ Example.serpKey Example.resend
            Example.sender Example.recipient []); reflexivity.
Defined.

(** ** The credit *)

Section Budget.
Import Js JsFacts.

Variables (rt : Runtime) (w : World).
Variables (serpKey : string) (resend : option Resend) (sender recipient : string).
Variable total : number.

(** One turn of the loop: what it adds to the trace and what it leaves of
    the searches. *)
Lemma loop_body_events st role tr :
  exists evs res,
    loop_body rt w serpKey resend sender recipient total st role tr = (tr ++ evs, res) /\
    at_most_a_notice sender recipient evs /\
    (remainingSearches st <= 0 ->
     evs = [] /\ res = Ok (skip_role rt total st role)) /\
    (0 < remainingSearches st -> fetched evs = [search_url role serpKey]) /\
    match res with
    | Ok st' =>
        sent evs = [] /\
        (0 < remainingSearches st ->
         (evs = [EFetch (search_url role serpKey)] /\
          remainingSearches st' = number_sub (remainingSearches st) (of_Z 1) /\
          quotaTriggered st' = quotaTriggered st /\
          quotaMessageSent st' = quotaMessageSent st) \/
         (remainingSearches st' = 0 /\
          quotaTriggered st' = true /\ quotaMessageSent st' = true))
    | Throw _ => 0 < remainingSearches st
    end.
Proof.
  destruct (Z_le_gt_dec (remainingSearches st) 0) as [Hle|Hgt].
  - rewrite loop_body_skip by done. exists [], (Ok (skip_role rt total st role)).
    rewrite (right_id_L [] (++)). repeat split; try done; try lia. by left.
  - destruct (search_events rt w serpKey resend sender recipient role tr)
      as (rest & E & Hf & Hs & Hres).
    destruct (fetchRoleResults rt w role serpKey resend sender recipient tr)
      as [tr1 res] eqn:Hsearch.
    simpl in E, Hres. subst tr1.
    rewrite (loop_body_search rt w serpKey resend sender recipient total st role tr _ _
               ltac:(lia) Hsearch).
    eexists _, _. split; [reflexivity|]. split; [exact Hs|]. split; [lia|].
    split; [intros _; change (search_url role serpKey :: fetched rest
                               = [search_url role serpKey]); by rewrite Hf|].
    destruct res as [jobs|e].
    + subst rest. split; [done|]. intros _. by left.
    + destruct (isQuotaExceededError e) eqn:He; [|lia].
      rewrite (Hres eq_refl). split; [done|]. intros _. by right.
Qed.

(** The searches of a run of the loop are the searches for the roles of a
    prefix of the list; up to 2^53 searches they are no more than the whole
    searches that were left; the loop hands over no mail when it ends and
    at most a notice when it is aborted. *)
Lemma for_roles_searched st roles tr :
  exists evs res searched,
    for_roles rt w serpKey resend sender recipient total st roles tr = (tr ++ evs, res) /\
    searched `prefix_of` roles /\
    fetched evs = (fun role => search_url role serpKey) <$> searched /\
    (remainingSearches st <= 0 -> searched = []) /\
    (remainingSearches st <= of_Z (2 ^ 53) ->
     Z.of_nat (length searched) <= Z.max 0 (ceiling (remainingSearches st))) /\
    at_most_a_notice sender recipient evs /\
    match res with Ok _ => sent evs = [] | Throw _ => True end.
Proof.
  revert st tr. induction roles as [|role rest IH]; intros st tr.
  - exists [], (Ok st), []. rewrite (right_id_L [] (++)).
    repeat split; simpl; try done; try lia. by left.
  - rewrite for_roles_cons.
    destruct (loop_body_events st role tr)
      as (evs1 & res1 & E1 & Hn1 & Hskip & Hsearch & Hres).
    rewrite E1. destruct res1 as [st1|e].
    + destruct Hres as (Hsent1 & Hrem).
      destruct (IH st1 (tr ++ evs1))
        as (evs2 & res2 & searched & E2 & Hpre & Hf2 & Hnone & Hl2 & Hn2 & Hres2).
      rewrite E2, <- (assoc_L (++)).
      assert (at_most_a_notice sender recipient (evs1 ++ evs2)) as Hn.
      { unfold at_most_a_notice. by rewrite sent_app, Hsent1. }
      assert (match res2 with Ok _ => sent (evs1 ++ evs2) = [] | Throw _ => True end) as Hr.
      { destruct res2; [|done]. by rewrite sent_app, Hsent1. }
      destruct (Z_le_gt_dec (remainingSearches st) 0) as [Hle|Hgt].
      * destruct (Hskip Hle) as [-> [= ->]].
        assert (searched = []) as -> by (apply Hnone; simpl; lia).
        exists evs2, res2, []. split; [done|]. split; [apply prefix_nil|].
        split; [done|]. split; [done|]. split; [simpl; lia|]. by split.
      * exists (evs1 ++ evs2), res2, (role :: searched).
        rewrite fetched_app, (Hsearch ltac:(lia)), Hf2.
        split; [done|]. split; [by apply prefix_cons|]. split; [done|].
        split; [lia|]. split; [|done]. intros Hmax.
        pose proof (ceiling_pos (remainingSearches st) ltac:(lia)) as Hc.
        assert (remainingSearches st1 <= of_Z (ceiling (remainingSearches st) - 1)) as Hst1.
        { destruct (Hrem ltac:(lia)) as [(_ & -> & _)|(-> & _)].
          - apply number_sub_one_below; [lia|done].
          - rewrite <- of_Z_0. apply of_Z_le. lia. }
        pose proof (ceiling_least _ _ Hmax) as Hcm.
        pose proof (ceiling_least _ _ Hst1) as Hc1.
        assert (remainingSearches st1 <= of_Z (2 ^ 53)) as Hmax1.
        { etrans; [exact Hst1|]. apply of_Z_le. lia. }
        specialize (Hl2 Hmax1). simpl length. lia.
    + exists evs1, (Throw e), [role]. rewrite (Hsearch Hres).
      split; [done|]. split; [apply prefix_cons, prefix_nil|]. split; [done|].
      split; [lia|]. split; [|done]. intros _.
      pose proof (ceiling_pos _ Hres). simpl. lia.
Qed.

Lemma fetched_searches roles :
  fetched ((fun role => EFetch (search_url role serpKey)) <$> roles)
  = (fun role => search_url role serpKey) <$> roles.
Proof.
  induction roles as [|role rest IH]; [done|].
  change (search_url role serpKey ::
            fetched ((fun role => EFetch (search_url role serpKey)) <$> rest)
          = search_url role serpKey :: ((fun role => search_url role serpKey) <$> rest)).
  by rewrite IH.
Qed.

Lemma sent_searches roles :
  sent ((fun role => EFetch (search_url role serpKey)) <$> roles) = [].
Proof. induction roles as [|role rest IH]; [done|]. exact IH. Qed.

(** The two flags move together and a raised flag means that no search is
    left; when the flags are down at the end, every role was searched, each
    search took one from the count, and nothing else happened. *)
Lemma for_roles_latch st roles tr tr' st' :
  for_roles rt w serpKey resend sender recipient total st roles tr = (tr', Ok st') ->
  quotaMessageSent st = quotaTriggered st ->
  (quotaTriggered st = true -> remainingSearches st <= 0) ->
  quotaMessageSent st' = quotaTriggered st' /\
  (quotaTriggered st' = true -> remainingSearches st' <= 0) /\
  (quotaTriggered st = true -> quotaTriggered st' = true) /\
  (quotaTriggered st' = false ->
   remainingSearches st' = countdown (length roles) (remainingSearches st) /\
   tr' = tr ++ ((fun role => EFetch (search_url role serpKey)) <$> roles)).
Proof.
  revert st tr. induction roles as [|role rest IH]; intros st tr.
  - intros [= <- <-] Hm Hq. simpl. rewrite (right_id_L [] (++)). by repeat split.
  - rewrite for_roles_cons.
    destruct (loop_body_events st role tr)
      as (evs1 & res1 & E1 & _ & Hskip & _ & Hres).
    rewrite E1. destruct res1 as [st1|e]; [|done].
    destruct Hres as (_ & Hrem). intros Hl Hm Hq.
    destruct (Z_le_gt_dec (remainingSearches st) 0) as [Hle|Hgt].
    + destruct (Hskip Hle) as [-> [= ->]]. rewrite (right_id_L [] (++)) in Hl.
      destruct (IH _ _ Hl) as (H1 & H2 & H3 & H4); [done|simpl; lia|].
      simpl in H3. specialize (H3 eq_refl).
      split; [done|]. split; [done|]. split; [done|].
      intros Hf. by rewrite H3 in Hf.
    + assert (quotaTriggered st = false) as Hqf.
      { destruct (quotaTriggered st); [|done]. specialize (Hq eq_refl). lia. }
      destruct (Hrem ltac:(lia)) as [(-> & Hr1 & Hq1 & Hm1)|(Hr1 & Hq1 & Hm1)].
      * destruct (IH _ _ Hl) as (H1 & H2 & H3 & H4);
          [congruence|rewrite Hq1, Hqf; done|].
        split; [done|]. split; [done|]. split; [by rewrite Hqf|].
        intros Hf. destruct (H4 Hf) as [-> ->]. rewrite Hr1.
        split; [|by rewrite <- (assoc_L (++))].
        unfold countdown. simpl length. by rewrite Nat.iter_succ_r.
      * destruct (IH _ _ Hl) as (H1 & H2 & H3 & H4); [congruence|lia|].
        specialize (H3 Hq1).
        split; [done|]. split; [done|]. split; [done|].
        intros Hf. by rewrite H3 in Hf.
Qed.

Lemma for_roles_no_credit role rest st tr :
  remainingSearches st <= 0 -> quotaMessageSent st = false ->
  for_roles rt w serpKey resend sender recipient total st (role :: rest) tr
  = (tr, Ok (skipped_all (skip_role rt total st role) rest)).
Proof.
  intros Hle Hm. rewrite for_roles_cons, loop_body_skip by done.
  by apply for_roles_skip_all.
Qed.

End Budget.

(** X16.  The loop searches only while searches are left: the searches it
    issues are the searches for the first roles of the list, one each, in
    order; there is none when no search is left at the start, and, for a
    count up to 2^53, there are no more of them than the count rounded up
    to a whole number.  This holds whether the loop ends or is aborted. *)
Theorem searches_within_budget
    (rt : Runtime) (w : World) (serpKey : string) (resend : option Resend)
    (sender recipient : string) (total : number) (st : LoopState) (roles : list string)
    (tr : trace) :
  exists evs res searched,
    for_roles rt w serpKey resend sender recipient total st roles tr = (tr ++ evs, res) /\
    searched `prefix_of` roles /\
    fetched evs = (fun role => search_url role serpKey) <$> searched /\
    (remainingSearches st <= 0 -> searched = []) /\
    (remainingSearches st <= of_Z (2 ^ 53) ->
     Z.of_nat (length searched) <= Z.max 0 (ceiling (remainingSearches st))).
Proof.
  destruct (for_roles_searched rt w serpKey resend sender recipient total st roles tr)
    as (evs & res & searched & E & Hpre & Hf & Hnone & Hl & _).
  by exists evs, res, searched.
Qed.

(** Two searches and a half are three searches: the count is tested before
    each search and is still a half before the third. *)
Example two_and_a_half_credits :
  let half_past_two := 5 * 2 ^ 1073 in
  let w := Example.scripted
             (Example.respond 200 "OK"
                {| total_searches_left := VNum (Fin half_past_two);
                   plan_searches_left := VUndefined; searches_left := VUndefined;
                   error_field := Undefined; error_code := Undefined;
                   jobs_results := JobsAbsent |})
             [("A", Example.listing []); ("B", Example.listing []);
              ("C", Example.listing []); ("D", Example.listing [])] in
  ceiling half_past_two = 3 /\
  exists tr st,
    for_roles Reference.runtime w Example.serpKey Example.resend Example.sender
      Example.recipient half_past_two (initial_state half_past_two)
      ["A"; "B"; "C"; "D"] [] = (tr, Ok st) /\
    fetched tr = [search_url "A" Example.serpKey; search_url "B" Example.serpKey;
                  search_url "C" Example.serpKey] /\
    remainingSearches st = - 2 ^ 1073.
Proof.
  intros x w. split; [reflexivity|]. eexists _, _.
  split; [evaluate|]. split; reflexivity.
Qed.

(** X17.  At the end of the loop the two quota flags are equal; when they are
    raised no search is left; when they are down every role was searched,
    once and in order, nothing else was sent or queried, and the count is
    what the subtractions of one, one for each role, leave of the count of
    the account: for a whole number below 2^53, that number less the number
    of roles, which it covers. *)
Theorem quota_latch
    (rt : Runtime) (w : World) (serpKey : string) (resend : option Resend)
    (sender recipient : string) (n : number) (roles : list string)
    (tr tr' : trace) (st : LoopState) :
  for_roles rt w serpKey resend sender recipient n (initial_state n) roles tr
    = (tr', Ok st) ->
  quotaMessageSent st = quotaTriggered st /\
  (quotaTriggered st = true -> remainingSearches st <= 0) /\
  (quotaTriggered st = false ->
   tr' = tr ++ ((fun role => EFetch (search_url role serpKey)) <$> roles) /\
   remainingSearches st = countdown (length roles) n /\
   (forall k, n = of_Z k -> Z.abs k < 2 ^ 53 ->
      remainingSearches st = of_Z (k - Z.of_nat (length roles)) /\
      (roles <> [] -> Z.of_nat (length roles) <= k))).
Proof.
  intros Hl.
  destruct (for_roles_latch rt w serpKey resend sender recipient n _ _ _ _ _ Hl)
    as (H1 & H2 & _ & H4); [done..|].
  split; [done|]. split; [done|]. intros Hq.
  destruct (H4 Hq) as [Hrem ->]. simpl in Hrem.
  split; [done|]. split; [done|]. intros k -> Hk.
  destruct (for_roles_searched rt w serpKey resend sender recipient (of_Z k)
              (initial_state (of_Z k)) roles tr)
    as (evs & res & searched & E & Hpre & Hf & _ & Hmax & _).
  rewrite Hl in E. injection E as E%(inj (app tr)) <-. subst evs.
  rewrite fetched_searches in Hf.
  assert (searched = roles) as ->.
  { apply (f_equal length) in Hf. rewrite !length_fmap in Hf.
    destruct Hpre as [rest ->]. rewrite length_app in Hf.
    destruct rest; [by rewrite (right_id_L [] (++))|simpl in Hf; lia]. }
  simpl in Hmax. rewrite ceiling_of_Z in Hmax.
  assert (Z.of_nat (length roles) <= Z.max 0 k) as Hroles.
  { apply Hmax, of_Z_le. lia. }
  assert (Z.of_nat (length roles) <= k \/ roles = []) as [Hle| ->].
  { destruct roles; [by right|left]. simpl length in *. lia. }
  - split; [|done]. rewrite Hrem. apply countdown_of_Z; lia.
  - split; [|done]. rewrite Hrem. simpl. f_equal. lia.
Qed.

Lemma quota_latch_witness :
  exists tr st,
    for_roles Reference.runtime
      (Example.scripted (Example.credits 5)
         [("A", Example.listing []); ("B", Example.listing []); ("C", Example.listing [])])
      Example.serpKey Example.resend Example.sender Example.recipient (of_Z 5)
      (initial_state (of_Z 5)) ["A"; "B"; "C"] [] = (tr, Ok st) /\
    remainingSearches st = of_Z 2.
Proof.
  destruct (for_roles _ _ _ _ _ _ _ _ _ _) as [tr [st|e]] eqn:E;
    [|vm_compute in E; discriminate].
  exists tr, st. split; [reflexivity|].
  destruct (quota_latch _ _ _ _ _ _ _ _ _ _ _ E) as (_ & _ & H).
  destruct H as (_ & _ & H); [vm_compute in E; by injection E as _ <-|].
  by destruct (H 5 eq_refl ltac:(lia)) as [-> _].
Defined.

(** The notice of the first skipped role, for a whole number of searches. *)
Lemma exhausted_details_of_Z rt k :
  Z.abs k < 2 ^ 53 -> k <> 0 -> k <> 1 ->
  exhausted_details rt (of_Z k) =
  "SerpAPI only had " +:+ pretty k +:+
  " searches available and they were used by earlier roles in this run.".
Proof.
  intros Hk H0 H1. unfold exhausted_details, number_text.
  assert (0 < 2 ^ 1074) as Hone by (apply Z.pow_pos_nonneg; lia).
  assert ((of_Z k =? 0) = false) as ->.
  { apply Z.eqb_neq. unfold of_Z. nia. }
  assert ((of_Z k =? of_Z 1) = false) as ->.
  { apply Z.eqb_neq. unfold of_Z. nia. }
  assert (is_safe_integer (of_Z k) = true) as ->.
  { unfold is_safe_integer. apply andb_true_intro. split.
    - apply Z.eqb_eq. unfold of_Z. apply Z.mod_mul. lia.
    - apply Z.ltb_lt. unfold of_Z. rewrite Z.abs_mul, (Z.abs_eq (2 ^ 1074)) by lia. nia. }
  assert (of_Z k / 2 ^ 1074 = k) as ->.
  { unfold of_Z. apply Z.div_mul. lia. }
  reflexivity.
Qed.

(** X18.  With no search granted at the start, the loop queries nothing: the
    first role gets the notice (that the credits are exhausted when the
    count is zero, that only so many searches were available when it is
    negative), every other role the section of a skipped role, and the
    report is handed to the mail client; an error thrown by the client
    leaves [fetchJobs], otherwise the line "Email sent" is logged. *)
Theorem no_credit_at_start
    (rt : Runtime) (w : World) (env : Env) (serpKey resendKey sender recipient : string)
    (role : string) (rest : list string) (tr0 tr1 : trace) (n : number) :
  let resend := Some {| api_key := resendKey |} in
  let mail :=
    report sender recipient
      (("Role: " +:+ role +:+ nl +:+ exhausted_details rt n +:+ nl +:+ TRIGGER_LAST_LINE) ::
       map (fun later => "Role: " +:+ later +:+ nl +:+ SKIPPED_LINE) rest) in
  configured env serpKey resendKey sender recipient (role :: rest) ->
  fetchRemainingSearches rt w serpKey resend sender recipient tr0 = (tr1, Ok n) ->
  n <= 0 ->
  fetchJobs rt w env tr0 =
    match deliver w tr1 mail with
    | None => (tr1 ++ [ESend mail; ELog "Email sent"], Ok tt)
    | Some err => (tr1 ++ [ESend mail], Throw err)
    end /\
  (n = 0 -> exhausted_details rt n = "SerpAPI search credits are exhausted for today.") /\
  (forall k, n = of_Z k -> - 2 ^ 53 < k < 0 ->
     exhausted_details rt n =
     "SerpAPI only had " +:+ pretty k +:+
     " searches available and they were used by earlier roles in this run.").
Proof.
  intros resend mail Hcfg Hlook Hn. split; [|split].
  - rewrite (fetchJobs_configured rt w env _ _ _ _ _ Hcfg). run. fold resend.
    rewrite Hlook, (for_roles_no_credit rt w serpKey resend sender recipient n) by done.
    rewrite finish_report by (simpl; intros [? _]; done).
    assert (Js.is_empty (exhausted_details rt n) = false) as Hne.
    { unfold exhausted_details. by destruct (n =? 0). }
    assert (report sender recipient
              (sections (skipped_all (skip_role rt n (initial_state n) role) rest)) = mail)
      as ->; [|done].
    unfold mail. f_equal. simpl. by rewrite Hne.
  - by intros ->.
  - intros k -> Hk. apply exhausted_details_of_Z; lia.
Qed.

Lemma no_credit_at_start_witness :
  exists tr,
    fetchJobs Reference.runtime (Example.scripted (Example.credits 0) []) Example.env []
    = (tr, Ok tt) /\
    fetched tr = ["https://serpapi.com/account?api_key=k"] /\
    length (sent tr) = 1%nat.
Proof.
  destruct (no_credit_at_start Reference.runtime
              (Example.scripted (Example.credits 0) []) Example.env Example.serpKey
              "re_1" Example.sender Example.recipient "A" ["B"; "C"] []
              [EFetch "https://serpapi.com/account?api_key=k"] 0
              ltac:(by split) ltac:(evaluate) ltac:(lia)) as [H _].
  simpl in H. eexists. split; [exact H|]. split; reflexivity.
Defined.

(** X19.  With a setting missing or empty, or with no role query in the role
    setting, [fetchJobs] throws at once: nothing is queried and no mail is
    handed over. *)
Theorem fetchJobs_unconfigured (rt : Runtime) (w : World) (env : Env) (tr : trace) :
  unset (SERPAPI_KEY env) = true \/ unset (RESEND_API_KEY env) = true \/
  unset (SENDER_EMAIL_ADDRESS env) = true \/ unset (TO_EMAIL_ADDRESS env) = true \/
  parseRoleQueries (ROLE_QUERY env) = [] ->
  exists e, fetchJobs rt w env tr = (tr, Throw e).
Proof.
  intros H. unfold fetchJobs.
  destruct (unset (SERPAPI_KEY env)); [by eexists|].
  destruct (unset (RESEND_API_KEY env)); [by eexists|].
  destruct (unset (SENDER_EMAIL_ADDRESS env)); [by eexists|].
  destruct (unset (TO_EMAIL_ADDRESS env)); [by eexists|].
  destruct H as [?|[?|[?|[?|H]]]]; try done. cbn [orb].
  destruct (unset (ROLE_QUERY env)); [by eexists|].
  rewrite H. by eexists.
Qed.

Lemma fetchJobs_unconfigured_witness :
  exists e,
    fetchJobs Reference.runtime (Example.scripted (Example.credits 5) [])
      {| SERPAPI_KEY := Some "k"; RESEND_API_KEY := Some "re_1";
         SENDER_EMAIL_ADDRESS := Some "jobs@example.com";
         TO_EMAIL_ADDRESS := Some "me@example.com"; ROLE_QUERY := Some " , ," |} []
    = ([], Throw e).
Proof. apply fetchJobs_unconfigured. do 4 right. reflexivity. Defined.


(** X20.  When the account lookup fails, the run ends on its error: the
    account endpoint is the only one queried, no role is searched, and the
    only mail there can be is the failure notice. *)
Theorem lookup_failure_aborts
    (rt : Runtime) (w : World) (env : Env) (serpKey resendKey sender recipient : string)
    (roles : list string) (tr tr' : trace) (e : error) :
  configured env serpKey resendKey sender recipient roles ->
  fetchRemainingSearches rt w serpKey (Some {| api_key := resendKey |}) sender recipient tr
    = (tr', Throw e) ->
  fetchJobs rt w env tr = (tr', Throw e) /\
  exists evs,
    tr' = tr ++ evs /\
    fetched evs = ["https://serpapi.com/account?api_key=" +:+ serpKey] /\
    at_most_a_notice sender recipient evs.
Proof.
  intros Hcfg Hlook. split.
  - rewrite (fetchJobs_configured rt w env _ _ _ _ _ Hcfg). run. by rewrite Hlook.
  - destruct (lookup_events rt w serpKey (Some {| api_key := resendKey |}) sender recipient tr)
      as (rest & E & Hf & Hs & _).
    rewrite Hlook in E. simpl in E. subst tr'.
    eexists. split; [reflexivity|]. split; [|exact Hs].
    change (fetched (EFetch ?u :: rest)) with (u :: fetched rest). by rewrite Hf.
Qed.

Lemma lookup_failure_aborts_witness :
  exists tr e,
    fetchJobs Reference.runtime
      (Example.scripted (Example.respond 401 "Unauthorized" Example.nothing)
         [("A", Example.listing [])])
      Example.env [] = (tr, Throw e) /\
    fetched tr = ["https://serpapi.com/account?api_key=k"].
Proof.
  destruct (fetchRemainingSearches Reference.runtime
              (Example.scripted (Example.respond 401 "Unauthorized" Example.nothing)
                 [("A", Example.listing [])])
              Example.serpKey (Some {| api_key := "re_1" |}) Example.sender
              Example.recipient []) as [tr [n|e]] eqn:E;
    [vm_compute in E; discriminate|].
  destruct (lookup_failure_aborts Reference.runtime _ Example.env Example.serpKey "re_1"
              Example.sender Example.recipient ["A"; "B"; "C"] [] tr e
              ltac:(by split) E) as (Hrun & evs & -> & Hf & _).
  exists evs, e. split; [exact Hrun|exact Hf].
Defined.

(** The events of a run, by its outcome. *)
Lemma fetchJobs_events (rt : Runtime) (w : World) (env : Env) (tr : trace) :
  let serpKey := default "" (SERPAPI_KEY env) in
  let sender := default "" (SENDER_EMAIL_ADDRESS env) in
  let recipient := default "" (TO_EMAIL_ADDRESS env) in
  exists evs res,
    fetchJobs rt w env tr = (tr ++ evs, res) /\
    requests_of_run serpKey (parseRoleQueries (ROLE_QUERY env)) (fetched evs) /\
    match res with
    | Ok _ =>
        (sent evs = [] /\ last evs = Some (ELog "No postings today")) \/
        (exists sections,
           sent evs = [report sender recipient sections] /\
           last evs = Some (ELog "Email sent"))
    | Throw _ =>
        sent evs = [] \/
        (exists details, sent evs = [notice sender recipient details]) \/
        (exists sections, sent evs = [report sender recipient sections])
    end.
Proof.
  intros serpKey sender recipient. unfold fetchJobs. fold serpKey sender recipient.
  set (resend := Some {| api_key := default "" (RESEND_API_KEY env) |}).
  set (roles := parseRoleQueries (ROLE_QUERY env)).
  assert (forall e : error, exists evs res,
            (tr, @Throw unit e) = (tr ++ evs, res) /\
            requests_of_run serpKey roles (fetched evs) /\
            match res with
            | Ok _ =>
                (sent evs = [] /\ last evs = Some (ELog "No postings today")) \/
                (exists sections,
                   sent evs = [report sender recipient sections] /\
                   last evs = Some (ELog "Email sent"))
            | Throw _ =>
                sent evs = [] \/
                (exists details, sent evs = [notice sender recipient details]) \/
                (exists sections, sent evs = [report sender recipient sections])
            end) as Hthrow.
  { intros e. exists [], (Throw e). rewrite (right_id_L [] (++)).
    repeat split; by left. }
  destruct (_ || _ || _ || _); [apply Hthrow|].
  destruct (unset (ROLE_QUERY env)); [apply Hthrow|].
  case_decide; [apply Hthrow|]. clear Hthrow. run.
  set (url := "https://serpapi.com/account?api_key=" +:+ serpKey) in *.
  destruct (lookup_events rt w serpKey resend sender recipient tr)
    as (rest & E & Hf & Hs & Hres). fold url in E.
  destruct (fetchRemainingSearches rt w serpKey resend sender recipient tr)
    as [tr1 [n|e]]; simpl in E, Hres; subst tr1.
  2:{ eexists _, (Throw e). split; [reflexivity|]. split.
      - right. exists []. split; [apply prefix_nil|].
        change (fetched (EFetch url :: rest)) with (url :: fetched rest).
        by rewrite Hf.
      - destruct Hs as [Hs|Hs]; [by left|right; by left]. }
  subst rest.
  destruct (for_roles_searched rt w serpKey resend sender recipient n (initial_state n)
              roles (tr ++ [EFetch url]))
    as (evs & res & searched & E & Hpre & Hfe & _ & _ & Hn & Hsent).
  rewrite E.
  assert (forall tail, fetched tail = [] ->
            requests_of_run serpKey roles (fetched (EFetch url :: evs ++ tail))) as Hreq.
  { intros tail Htail. right. exists searched. split; [done|].
    change (fetched (EFetch url :: ?l)) with (url :: fetched l).
    by rewrite fetched_app, Hfe, Htail, (right_id_L [] (++)). }
  destruct res as [st|e].
  2:{ exists (EFetch url :: evs ++ []), (Throw e).
      rewrite (right_id_L [] (++) evs) at 1. rewrite <- (assoc_L (++)).
      split; [reflexivity|]. split; [by apply Hreq|].
      rewrite (right_id_L [] (++)).
      destruct Hn as [Hn|Hn]; [by left|right; by left]. }
  unfold finish. destruct (negb (quotaTriggered st) && negb (hasAnyPosting st)).
  - exists (EFetch url :: evs ++ [ELog "No postings today"]), (Ok tt).
    split; [unfold emit; by rewrite <- !(assoc_L (++))|]. split; [by apply Hreq|].
    left. split.
    + change (sent (evs ++ [ELog "No postings today"]) = []).
      by rewrite sent_app, Hsent.
    + change (last ((EFetch url :: evs) ++ [ELog "No postings today"])
              = Some (ELog "No postings today")).
      apply last_snoc.
  - run. unfold send.
    set (mail := report sender recipient (sections st)).
    destruct (deliver w _ mail).
    + exists (EFetch url :: evs ++ [ESend mail]), (Throw e).
      split; [by rewrite <- !(assoc_L (++))|]. split; [by apply Hreq|].
      right. right. exists (sections st).
      change (sent (evs ++ [ESend mail]) = [mail]). by rewrite sent_app, Hsent.
    + exists (EFetch url :: evs ++ [ESend mail; ELog "Email sent"]), (Ok tt).
      split; [by rewrite <- !(assoc_L (++))|]. split; [by apply Hreq|].
      right. exists (sections st). split.
      * change (sent (evs ++ [ESend mail; ELog "Email sent"]) = [mail]).
        by rewrite sent_app, Hsent.
      * rewrite (assoc_L (++) evs [ESend mail] [ELog "Email sent"]
                  : evs ++ [ESend mail; ELog "Email sent"] = _).
        change (last ((EFetch url :: evs ++ [ESend mail]) ++ [ELog "Email sent"])
                = Some (ELog "Email sent")).
        apply last_snoc.
Qed.

(** X21.  A run hands over at most one mail, the failure notice or the
    report, never both.  Its requests are none, or one lookup of the
    account followed by the searches for the first roles of the list, one
    for each and in their order: the account is queried once at most, and
    no role query is searched twice or out of turn. *)
Theorem fetchJobs_at_most_one_mail (rt : Runtime) (w : World) (env : Env) (tr : trace) :
  let serpKey := default "" (SERPAPI_KEY env) in
  let sender := default "" (SENDER_EMAIL_ADDRESS env) in
  let recipient := default "" (TO_EMAIL_ADDRESS env) in
  let roles := parseRoleQueries (ROLE_QUERY env) in
  exists evs res,
    fetchJobs rt w env tr = (tr ++ evs, res) /\
    (sent evs = [] \/
     (exists details, sent evs = [notice sender recipient details]) \/
     (exists sections, sent evs = [report sender recipient sections])) /\
    (fetched evs = [] \/
     exists searched,
       searched `prefix_of` roles /\
       fetched evs =
         ("https://serpapi.com/account?api_key=" +:+ serpKey) ::
         ((fun role => search_url role serpKey) <$> searched)).
Proof.
  intros serpKey sender recipient roles.
  destruct (fetchJobs_events rt w env tr) as (evs & res & E & Hreq & Hres).
  exists evs, res. split; [exact E|]. split; [|exact Hreq].
  destruct res as [[]|e]; [|exact Hres].
  destruct Hres as [[Hs _]|(sections & Hs & _)]; [by left|].
  right. right. by exists sections.
Qed.

(** X22.  The process ends with status 0 or 1.  With status 0 no failure
    notice was handed over: the run ended on the log line "No postings
    today" without a mail, or on "Email sent" with the report as its only
    mail.  With status 1 [fetchJobs] threw, and its error is written to the
    error console last. *)
Theorem main_exit_status (rt : Runtime) (w : World) (env : Env) :
  let sender := default "" (SENDER_EMAIL_ADDRESS env) in
  let recipient := default "" (TO_EMAIL_ADDRESS env) in
  exists tr,
    (main rt w env = (tr, 0) /\
     ((sent tr = [] /\ last tr = Some (ELog "No postings today")) \/
      (exists sections,
         sent tr = [report sender recipient sections] /\
         last tr = Some (ELog "Email sent")))) \/
    (exists e,
       fetchJobs rt w env [] = (tr, Throw e) /\
       main rt w env = (tr ++ [EConsoleError (message e)], 1)).
Proof.
  intros sender recipient. unfold main.
  destruct (fetchJobs_events rt w env []) as (evs & res & E & _ & Hres).
  rewrite E. simpl. exists evs. destruct res as [[]|e].
  - left. by split.
  - right. by exists e.
Qed.

(** ** Sections of the report *)

Section Sections.
Import Js JsFacts.

(** What [trimEnd] leaves does not end with white space. *)
Lemma trimEnd_last s d : last_of None (trimEnd s) = Some d -> is_space d = false.
Proof.
  induction s as [|c s IH]; [done|]. simpl.
  destruct (trimEnd s) as [|x u] eqn:E.
  - destruct (is_space c) eqn:Hc; [done|]. simpl. by intros [= <-].
  - intros H. by apply IH.
Qed.

(** A block starts with its title line and ends with a line feed. *)
Lemma jobBlock_shape job :
  exists middle, jobBlock job = String "T" middle +:+ nl.
Proof.
  unfold jobBlock, join. simpl.
  rewrite app_nil_r, <- !app_assoc, !(app_cons "T").
  eexists. symmetry. apply (app_cons "T").
Qed.

Lemma jobBlocks_shape jobs :
  jobs <> [] ->
  exists middle, join nl (map jobBlock jobs) = String "T" middle +:+ nl.
Proof.
  induction jobs as [|job rest IH]; [done|]. intros _.
  destruct (jobBlock_shape job) as (m & E).
  destruct rest as [|job' rest].
  - exists m. simpl. by rewrite E.
  - destruct IH as (m' & E'); [done|].
    change (join nl (map jobBlock (job :: job' :: rest)))
      with (jobBlock job +:+ nl +:+ join nl (map jobBlock (job' :: rest))).
    rewrite E, E'. exists (m +:+ nl +:+ nl +:+ String "T" m').
    repeat (rewrite ?app_assoc, ?(app_cons "T")). reflexivity.
Qed.

End Sections.

(** X23.  The section of a role with postings is the line of the role and
    the blocks of the postings, separated by empty lines, less the white
    space at the end and nothing else: the line feed that closes the last
    block is removed, and the section does not end with white space. *)
Theorem formatRoleSection_body (roleQuery : string) (jobs : list JobPosting) :
  jobs <> [] ->
  exists tail,
    "Role: " +:+ roleQuery +:+ nl +:+ Js.join nl (map jobBlock jobs)
      = formatRoleSection roleQuery jobs +:+ tail /\
    tail <> "" /\ all_chars Js.is_space tail = true /\
    Js.trimEnd (formatRoleSection roleQuery jobs) = formatRoleSection roleQuery jobs.
Proof.
  intros Hne. unfold formatRoleSection.
  rewrite decide_False by (by destruct jobs).
  destruct (jobBlocks_shape jobs Hne) as (m & E). cbv zeta.
  set (blocks := Js.join nl (map jobBlock jobs)) in *.
  assert (Js.trim blocks = Js.trimEnd blocks) as Et.
  { unfold Js.trim. rewrite E, JsFacts.app_cons. reflexivity. }
  assert (Js.trimEnd blocks <> "") as Hfull.
  { rewrite E, JsFacts.app_cons, JsFacts.trimEnd_cons_nonspace; done. }
  destruct (trimEnd_suffix blocks) as (tail & Es & Htail).
  change (Js.join nl ["Role: " +:+ roleQuery; Js.trim blocks])
    with (("Role: " +:+ roleQuery) +:+ nl +:+ Js.trim blocks).
  rewrite Et. exists tail. split; [|split; [|split; [exact Htail|]]].
  - rewrite Es at 1. by rewrite <- !JsFacts.app_assoc.
  - intros ->. rewrite JsFacts.app_nil_r in Es.
    assert (Js.last_of None (Js.trimEnd blocks) = Some (ascii_of_N 10)) as Hl.
    { rewrite <- Es, E. rewrite last_of_app. reflexivity. }
    by apply trimEnd_last in Hl.
  - rewrite <- JsFacts.app_assoc.
    rewrite JsFacts.trimEnd_app_nonempty by (by rewrite trimEnd_idem).
    by rewrite trimEnd_idem.
Qed.

Lemma formatRoleSection_body_witness :
  Js.trimEnd (formatRoleSection "Staff Engineer"
                [Example.posting "Staff Engineer" "Acme" "today"])
  = formatRoleSection "Staff Engineer" [Example.posting "Staff Engineer" "Acme" "today"].
Proof.
  destruct (formatRoleSection_body "Staff Engineer"
              [Example.posting "Staff Engineer" "Acme" "today"] ltac:(discriminate))
    as (tail & _ & _ & _ & H).
  exact H.
Defined.

(** X24.  [isQuotaErrorMessage] answers true for the texts that contain
    "quota", "limit" or "exceeded" in any letter case, and for nothing else:
    an absent, null or empty text is no quota message. *)
Theorem isQuotaErrorMessage_exactly (msg : field) :
  isQuotaErrorMessage msg = true <->
  exists text,
    msg = Str text /\
    (has_text "quota" text \/ has_text "limit" text \/ has_text "exceeded" text).
Proof.
  split.
  - destruct msg as [| |text]; [done..|]. intros H. exists text. split; [done|].
    by apply isQuotaErrorMessage_has_text.
  - intros (text & -> & H). by apply isQuotaErrorMessage_has_text.
Qed.
